(** * doctl: the domain and domain-record command handlers

    A shallow embedding of [commands/domains.go].  Every handler of that file
    is a function of a [CmdConfig] that reads positional arguments and flags,
    talks to the remote [DomainsService] and hands the answer to the
    displayer.  The handlers are written here in a state-and-error monad over
    a [World] that holds the remote state, the log of remote calls and the
    log of displayed items, so that statements about "which remote calls were
    made, in which order" are statements about a list. *)

From Stdlib Require Import List String Ascii ZArith Bool Lia.
Import ListNotations.
Local Open Scope string_scope.
Local Open Scope list_scope.

(** ** Go's [strconv.Atoi] on a 64-bit platform *)

Module strconv.

Definition digit (a : ascii) : option Z :=
  let n := Z.of_N (N_of_ascii a) in
  if ((48 <=? n) && (n <=? 57))%Z then Some (n - 48)%Z else None.

Fixpoint digits (s : string) (acc : Z) : option Z :=
  match s with
  | EmptyString => Some acc
  | String a rest =>
      match digit a with
      | Some d => digits rest (10 * acc + d)%Z
      | None => None
      end
  end.

(** Base-10 [ParseUint]: at least one character, decimal digits only. *)
Definition ParseUint (s : string) : option Z :=
  match s with
  | EmptyString => None
  | _ => digits s 0%Z
  end.

(** [Atoi s]: an optional sign, then [ParseUint]; a value outside the
    range of [int] is a range error.  [None] stands for a non-nil error. *)
Definition Atoi (s : string) : option Z :=
  match s with
  | EmptyString => None
  | String a rest =>
      let neg := Ascii.eqb a "-"%char in
      let body := if Ascii.eqb a "+"%char || neg then rest else s in
      match ParseUint body with
      | None => None
      | Some un =>
          if neg
          then if (un <=? 2 ^ 63)%Z then Some (- un)%Z else None
          else if (un <? 2 ^ 63)%Z then Some un else None
      end
  end.

End strconv.

(** ** Transport records *)

Module godo.

Record DomainCreateRequest := {
  dcr_Name : string;
  dcr_IPAddress : string
}.

Record DomainRecordEditRequest := {
  Type_ : string;
  Name : string;
  Data : string;
  Priority : Z;
  Port : Z;
  Weight : Z
}.

(** Modelled from the spec: the declaration of the domain entity
    (name, IP) lives in the API client library. *)
Record Domain := {
  dom_Name : string;
  dom_IP : string
}.

(** Modelled from the spec: the declaration of the domain record entity
    (id, type, name, data, priority, port, weight) lives in the API client
    library. *)
Record DomainRecord := {
  rec_ID : Z;
  rec_Type : string;
  rec_Name : string;
  rec_Data : string;
  rec_Priority : Z;
  rec_Port : Z;
  rec_Weight : Z
}.

End godo.

(** ** Errors *)

(** The error values the handlers build themselves, and [RemoteErr] for the
    opaque errors that come out of a collaborator. *)
Inductive error : Type :=
| MissingArgsErr (Command : string)          (* doctl.NewMissingArgsErr *)
| errors_New (text : string)                 (* errors.New *)
| fmt_Errorf (format : string) (a : string)  (* fmt.Errorf with one operand *)
| RemoteErr (text : string).

Inductive ErrorKind := MissingArguments | InvalidInput | Transport.

Definition kind_of (e : error) : ErrorKind :=
  match e with
  | MissingArgsErr _ => MissingArguments
  | errors_New _ | fmt_Errorf _ _ => InvalidInput
  | RemoteErr _ => Transport
  end.

(** Modelled from the spec: the flag names of package [doctl]
    ([doctl.ArgRecordType] and its siblings), as the command line spells
    them. *)
Module doctl.
Definition ArgIPAddress := "ip-address".
Definition ArgRecordID := "record-id".
Definition ArgRecordType := "record-type".
Definition ArgRecordName := "record-name".
Definition ArgRecordData := "record-data".
Definition ArgRecordPriority := "record-priority".
Definition ArgRecordPort := "record-port".
Definition ArgRecordWeight := "record-weight".
End doctl.

(** ** What the displayer is given *)

Inductive Displayable :=
| domain (domains : list godo.Domain)
| domainRecord (domainRecords : list godo.DomainRecord).

(** ** Remote calls, as a mock records them *)

Inductive Call :=
| CallCreate (req : godo.DomainCreateRequest)
| CallList
| CallGet (name : string)
| CallDelete (name : string)
| CallRecords (name : string)
| CallCreateRecord (name : string) (req : godo.DomainRecordEditRequest)
| CallDeleteRecord (name : string) (id : Z)
| CallEditRecord (name : string) (id : Z) (req : godo.DomainRecordEditRequest).

Record Event := {
  ev_call : Call;
  ev_err : option error
}.

Section Commands.

(** The state behind the service interface: the provider's data for the
    live implementation, the recorded expectations for a mock. *)
Variable S : Type.

(** [do.DomainsService].  A Go result [(v, err)] is a pair; a pointer
    result is an [option], [None] being [nil]. *)
Record DomainsService := {
  List_ : S -> (list godo.Domain * option error) * S;
  Get : string -> S -> (option godo.Domain * option error) * S;
  Create : godo.DomainCreateRequest -> S -> (option godo.Domain * option error) * S;
  Delete : string -> S -> option error * S;
  Records : string -> S -> (list godo.DomainRecord * option error) * S;
  CreateRecord : string -> godo.DomainRecordEditRequest -> S ->
                 (option godo.DomainRecord * option error) * S;
  DeleteRecord : string -> Z -> S -> option error * S;
  EditRecord : string -> Z -> godo.DomainRecordEditRequest -> S ->
               (option godo.DomainRecord * option error) * S
}.

(** [doctl.Config], the flag store behind [c.Doit]. *)
Record Config := {
  GetString : string -> string -> string * option error;
  GetInt : string -> string -> Z * option error
}.

Record CmdConfig := {
  NS : string;
  Doit : Config;
  Args : list string;
  Domains : DomainsService;
  Display : Displayable -> option error
}.

Record World := {
  remote : S;
  calls : list Event;
  displayed : list Displayable
}.

(** *** The monad of a handler body *)

(** A body either goes on with a value, or leaves the handler: with a
    returned error, or with a run-time panic. *)
Inductive exit :=
| Err (e : error)
| Panic.

Definition M (A : Type) : Type := World -> (A + exit) * World.

Definition ret {A} (a : A) : M A := fun w => (inl a, w).

Definition leave {A} (x : exit) : M A := fun w => (inr x, w).

Definition bind {A B} (m : M A) (k : A -> M B) : M B :=
  fun w =>
    match m w with
    | (inl a, w') => k a w'
    | (inr x, w') => (inr x, w')
    end.

Notation "x <- m ;; k" := (bind m (fun x => k))
  (at level 61, m at next level, right associativity).
Notation "m ;;; k" := (bind m (fun _ => k))
  (at level 61, right associativity).

(** [return e] *)
Definition Return {A} (e : error) : M A := leave (Err e).

(** [if cond { return e }] *)
Definition return_if (cond : bool) (e : error) : M unit :=
  if cond then Return e else ret tt.

(** [if err != nil { return err }] *)
Definition check (err : option error) : M unit :=
  match err with
  | Some e => Return e
  | None => ret tt
  end.

(** [v, err := f(); if err != nil { return err }] for a pure [f] *)
Definition attempt {A} (p : A * option error) : M A :=
  check (snd p) ;;; ret (fst p).

(** [*p] *)
Definition deref {A} (p : option A) : M A :=
  match p with
  | Some a => ret a
  | None => leave Panic
  end.

(** [args[i]] *)
Definition index (args : list string) (i : nat) : M string :=
  match nth_error args i with
  | Some a => ret a
  | None => leave Panic
  end.

(** A remote call: the service runs on the remote state and the call is
    logged together with the error it answered. *)
Definition invoke {A} (cl : Call) (op : S -> (A * option error) * S)
  : M (A * option error) :=
  fun w =>
    let '(r, s') := op (remote w) in
    (inl r,
     {| remote := s';
        calls := calls w ++ [{| ev_call := cl; ev_err := snd r |}];
        displayed := displayed w |}).

Definition invoke_err (cl : Call) (op : S -> option error * S)
  : M (option error) :=
  r <- invoke cl (fun s => let '(e, s') := op s in ((tt, e), s')) ;;
  ret (snd r).

(** [return c.Display(item)] *)
Definition display (c : CmdConfig) (item : Displayable) : M unit :=
  fun w =>
    let w' := {| remote := remote w;
                 calls := calls w;
                 displayed := displayed w ++ [item] |} in
    match Display c item with
    | Some e => (inr (Err e), w')
    | None => (inl tt, w')
    end.

(** *** The handlers *)

Definition RunDomainCreate (c : CmdConfig) : M unit :=
  return_if (negb (List.length (Args c) =? 1)%nat) (MissingArgsErr (NS c)) ;;;
  domainName <- index (Args c) 0 ;;
  let ds := Domains c in
  ipAddress <- attempt (GetString (Doit c) (NS c) "ip-address") ;;
  let req := {| godo.dcr_Name := domainName;
                godo.dcr_IPAddress := ipAddress |} in
  r <- invoke (CallCreate req) (Create ds req) ;;
  check (snd r) ;;;
  d <- deref (fst r) ;;
  display c (domain [d]).

Definition RunDomainList (c : CmdConfig) : M unit :=
  let ds := Domains c in
  r <- invoke CallList (List_ ds) ;;
  check (snd r) ;;;
  let item := domain (fst r) in
  display c item.

Definition RunDomainGet (c : CmdConfig) : M unit :=
  return_if (negb (List.length (Args c) =? 1)%nat) (MissingArgsErr (NS c)) ;;;
  id <- index (Args c) 0 ;;
  let ds := Domains c in
  return_if (String.length id <? 1)%nat (errors_New "invalid domain name") ;;;
  r <- invoke (CallGet id) (Get ds id) ;;
  check (snd r) ;;;
  d <- deref (fst r) ;;
  let item := domain [d] in
  display c item.

Definition RunDomainDelete (c : CmdConfig) : M unit :=
  return_if (negb (List.length (Args c) =? 1)%nat) (MissingArgsErr (NS c)) ;;;
  name <- index (Args c) 0 ;;
  let ds := Domains c in
  return_if (String.length name <? 1)%nat (errors_New "invalid domain name") ;;;
  err <- invoke_err (CallDelete name) (Delete ds name) ;;
  check err.

Definition RunRecordList (c : CmdConfig) : M unit :=
  return_if (negb (List.length (Args c) =? 1)%nat) (MissingArgsErr (NS c)) ;;;
  name <- index (Args c) 0 ;;
  let ds := Domains c in
  return_if (String.length name <? 1)%nat (errors_New "domain name is missing") ;;;
  r <- invoke (CallRecords name) (Records ds name) ;;
  check (snd r) ;;;
  let items := domainRecord (fst r) in
  display c items.

Definition RunRecordCreate (c : CmdConfig) : M unit :=
  return_if (negb (List.length (Args c) =? 1)%nat) (MissingArgsErr (NS c)) ;;;
  name <- index (Args c) 0 ;;
  let ds := Domains c in
  rType <- attempt (GetString (Doit c) (NS c) doctl.ArgRecordType) ;;
  rName <- attempt (GetString (Doit c) (NS c) doctl.ArgRecordName) ;;
  rData <- attempt (GetString (Doit c) (NS c) doctl.ArgRecordData) ;;
  rPriority <- attempt (GetInt (Doit c) (NS c) doctl.ArgRecordPriority) ;;
  rPort <- attempt (GetInt (Doit c) (NS c) doctl.ArgRecordPort) ;;
  rWeight <- attempt (GetInt (Doit c) (NS c) doctl.ArgRecordWeight) ;;
  let drcr := {| godo.Type_ := rType;
                 godo.Name := rName;
                 godo.Data := rData;
                 godo.Priority := rPriority;
                 godo.Port := rPort;
                 godo.Weight := rWeight |} in
  return_if (String.length (godo.Type_ drcr) =? 0)%nat
            (errors_New "record request is missing type") ;;;
  r <- invoke (CallCreateRecord name drcr) (CreateRecord ds name drcr) ;;
  check (snd r) ;;;
  rec <- deref (fst r) ;;
  let item := domainRecord [rec] in
  display c item.

(** The body of [for _, i := range ids]. *)
Fixpoint delete_each (ds : DomainsService) (domainName : string)
         (ids : list string) : M unit :=
  match ids with
  | [] => ret tt
  | i :: rest =>
      match strconv.Atoi i with
      | None => Return (fmt_Errorf "invalid record id %q" i)
      | Some id =>
          err <- invoke_err (CallDeleteRecord domainName id)
                            (DeleteRecord ds domainName id) ;;
          check err ;;;
          delete_each ds domainName rest
      end
  end.

Definition RunRecordDelete (c : CmdConfig) : M unit :=
  return_if (List.length (Args c) <? 2)%nat (MissingArgsErr (NS c)) ;;;
  domainName <- index (Args c) 0 ;;
  let ids := skipn 1 (Args c) in
  return_if (List.length ids <? 1)%nat (MissingArgsErr (NS c)) ;;;
  let ds := Domains c in
  delete_each ds domainName ids ;;;
  ret tt.

Definition RunRecordUpdate (c : CmdConfig) : M unit :=
  return_if (negb (List.length (Args c) =? 1)%nat) (MissingArgsErr (NS c)) ;;;
  domainName <- index (Args c) 0 ;;
  let ds := Domains c in
  recordID <- attempt (GetInt (Doit c) (NS c) doctl.ArgRecordID) ;;
  rType <- attempt (GetString (Doit c) (NS c) doctl.ArgRecordType) ;;
  rName <- attempt (GetString (Doit c) (NS c) doctl.ArgRecordName) ;;
  rData <- attempt (GetString (Doit c) (NS c) doctl.ArgRecordData) ;;
  rPriority <- attempt (GetInt (Doit c) (NS c) doctl.ArgRecordPriority) ;;
  rPort <- attempt (GetInt (Doit c) (NS c) doctl.ArgRecordPort) ;;
  rWeight <- attempt (GetInt (Doit c) (NS c) doctl.ArgRecordWeight) ;;
  let drcr := {| godo.Type_ := rType;
                 godo.Name := rName;
                 godo.Data := rData;
                 godo.Priority := rPriority;
                 godo.Port := rPort;
                 godo.Weight := rWeight |} in
  r <- invoke (CallEditRecord domainName recordID drcr)
              (EditRecord ds domainName recordID drcr) ;;
  check (snd r) ;;;
  rec <- deref (fst r) ;;
  let item := domainRecord [rec] in
  display c item.

(** *** The command table *)

Inductive Handler :=
| HDomainCreate | HDomainList | HDomainGet | HDomainDelete
| HRecordList | HRecordCreate | HRecordDelete | HRecordUpdate.

Definition run (h : Handler) : CmdConfig -> M unit :=
  match h with
  | HDomainCreate => RunDomainCreate
  | HDomainList => RunDomainList
  | HDomainGet => RunDomainGet
  | HDomainDelete => RunDomainDelete
  | HRecordList => RunRecordList
  | HRecordCreate => RunRecordCreate
  | HRecordDelete => RunRecordDelete
  | HRecordUpdate => RunRecordUpdate
  end.

(** The number of positional arguments in the usage line of each command:
    ["create <domain>"], ["list"], ["delete <domain> <record id...>"]. *)
Definition required_args (h : Handler) : nat :=
  match h with
  | HDomainList => 0
  | HRecordDelete => 2
  | _ => 1
  end.

Definition single_argument (h : Handler) : bool :=
  match h with
  | HDomainList | HRecordDelete => false
  | _ => true
  end.

End Commands.

Arguments List_ {S}.
Arguments Get {S}.
Arguments Create {S}.
Arguments Delete {S}.
Arguments Records {S}.
Arguments CreateRecord {S}.
Arguments DeleteRecord {S}.
Arguments EditRecord {S}.
Arguments NS {S}.
Arguments Doit {S}.
Arguments Args {S}.
Arguments Domains {S}.
Arguments Display {S}.
Arguments remote {S}.
Arguments calls {S}.
Arguments displayed {S}.
Arguments ret {S A}.
Arguments leave {S A}.
Arguments bind {S A B}.
Arguments Return {S A}.
Arguments return_if {S}.
Arguments check {S}.
Arguments attempt {S A}.
Arguments deref {S A}.
Arguments index {S}.
Arguments invoke {S A}.
Arguments invoke_err {S}.
Arguments display {S}.
Arguments RunDomainCreate {S}.
Arguments RunDomainList {S}.
Arguments RunDomainGet {S}.
Arguments RunDomainDelete {S}.
Arguments RunRecordList {S}.
Arguments RunRecordCreate {S}.
Arguments delete_each {S}.
Arguments RunRecordDelete {S}.
Arguments RunRecordUpdate {S}.
Arguments run {S}.

(** ** Test doubles *)

Fixpoint lookup {A} (key : string) (l : list (string * A)) : option A :=
  match l with
  | [] => None
  | (k, v) :: rest => if String.eqb k key then Some v else lookup key rest
  end.

(** A flag store that answers from two tables and never fails; an absent
    flag reads as its default, the empty string or zero. *)
Definition flags (strs : list (string * string)) (ints : list (string * Z))
  : Config :=
  {| GetString := fun _ key =>
       (match lookup key strs with Some v => v | None => "" end, None);
     GetInt := fun _ key =>
       (match lookup key ints with Some v => v | None => 0%Z end, None) |}.

(** What a test hands to [Return] for one result of a mocked method, as
    the generated methods look at it: a function to call, a value, or nil. *)
Module mock.

Inductive Argument (F V : Type) :=
| Func (rf : unit -> F)
| Value (v : V)
| Nil.

Arguments Func {F V}.
Arguments Value {F V}.
Arguments Nil {F V}.

End mock.

Module mocks.

(** [RegionsService.List] of [do/mocks/RegionsService.go], for any entity
    in the place of the regions: the first configured result is called if
    it is a function and taken as the list otherwise, [r0] staying the nil
    list when it is nil; the second is called if it is a function and is
    the configured error, or nil, otherwise. *)
Definition List {A} (ret0 : mock.Argument (list A) (list A))
           (ret1 : mock.Argument (option error) error)
  : list A * option error :=
  let r0 :=
    match ret0 with
    | mock.Func rf => rf tt
    | mock.Value v => v
    | mock.Nil => []
    end in
  let r1 :=
    match ret1 with
    | mock.Func rf => rf tt
    | mock.Value e => Some e
    | mock.Nil => None
    end in
  (r0, r1).

(** The canned answers a test configures on a mocked [DomainsService]:
    each operation answers what it was told to, whatever it is called
    with and whatever was called before. *)
Record Answers := {
  on_List : mock.Argument (list godo.Domain) (list godo.Domain)
            * mock.Argument (option error) error;
  on_Get : option godo.Domain * option error;
  on_Create : option godo.Domain * option error;
  on_Delete : option error;
  on_Records : list godo.DomainRecord * option error;
  on_CreateRecord : option godo.DomainRecord * option error;
  on_DeleteRecord : Z -> option error;
  on_EditRecord : option godo.DomainRecord * option error
}.

Definition DomainsService (a : Answers) : DomainsService unit :=
  {| List_ := fun s => (List (fst (on_List a)) (snd (on_List a)), s);
     Get := fun _ s => (on_Get a, s);
     Create := fun _ s => (on_Create a, s);
     Delete := fun _ s => (on_Delete a, s);
     Records := fun _ s => (on_Records a, s);
     CreateRecord := fun _ _ s => (on_CreateRecord a, s);
     DeleteRecord := fun _ id s => (on_DeleteRecord a id, s);
     EditRecord := fun _ _ _ s => (on_EditRecord a, s) |}.

(** A mock on which every operation succeeds with empty answers. *)
Definition quiet : Answers :=
  {| on_List := (mock.Nil, mock.Nil);
     on_Get := (Some {| godo.dom_Name := "example.com"; godo.dom_IP := "" |}, None);
     on_Create := (Some {| godo.dom_Name := "example.com"; godo.dom_IP := "" |}, None);
     on_Delete := None;
     on_Records := ([], None);
     on_CreateRecord :=
       (Some {| godo.rec_ID := 1; godo.rec_Type := "A"; godo.rec_Name := "www";
                godo.rec_Data := "10.0.0.1"; godo.rec_Priority := 0;
                godo.rec_Port := 0; godo.rec_Weight := 0 |}, None);
     on_DeleteRecord := fun _ => None;
     on_EditRecord :=
       (Some {| godo.rec_ID := 1; godo.rec_Type := "A"; godo.rec_Name := "www";
                godo.rec_Data := "10.0.0.1"; godo.rec_Priority := 0;
                godo.rec_Port := 0; godo.rec_Weight := 0 |}, None) |}.

(** A command configuration over a mocked service, with a displayer that
    succeeds. *)
Definition config (a : Answers) (args : list string)
           (strs : list (string * string)) (ints : list (string * Z))
  : CmdConfig unit :=
  {| NS := "domain";
     Doit := flags strs ints;
     Args := args;
     Domains := DomainsService a;
     Display := fun _ => None |}.

Definition start : World unit :=
  {| remote := tt; calls := []; displayed := [] |}.

End mocks.

(** An in-memory stand-in for the provider: the remote state is the table of
    the records of all domains. *)
Module memory.

Definition Store := list (string * godo.DomainRecord).

Definition of_request (id : Z) (req : godo.DomainRecordEditRequest)
  : godo.DomainRecord :=
  {| godo.rec_ID := id;
     godo.rec_Type := godo.Type_ req;
     godo.rec_Name := godo.Name req;
     godo.rec_Data := godo.Data req;
     godo.rec_Priority := godo.Priority req;
     godo.rec_Port := godo.Port req;
     godo.rec_Weight := godo.Weight req |}.

Definition is_record (name : string) (id : Z)
           (e : string * godo.DomainRecord) : bool :=
  String.eqb (fst e) name && Z.eqb (godo.rec_ID (snd e)) id.

Definition records_of (name : string) (s : Store) : list godo.DomainRecord :=
  map snd (filter (fun e => String.eqb (fst e) name) s).

Definition next_id (s : Store) : Z :=
  Z.succ (fold_right (fun e m => Z.max (godo.rec_ID (snd e)) m) 0%Z s).

Definition not_found : error := RemoteErr "not found".

Definition DomainsService : DomainsService Store :=
  {| List_ := fun s => (([], None), s);
     Get := fun _ s => ((None, Some not_found), s);
     Create := fun req s =>
       ((Some {| godo.dom_Name := godo.dcr_Name req;
                 godo.dom_IP := godo.dcr_IPAddress req |}, None), s);
     Delete := fun name s =>
       (None, filter (fun e => negb (String.eqb (fst e) name)) s);
     Records := fun name s => ((records_of name s, None), s);
     CreateRecord := fun name req s =>
       let r := of_request (next_id s) req in
       ((Some r, None), s ++ [(name, r)]);
     DeleteRecord := fun name id s =>
       if existsb (is_record name id) s
       then (None, filter (fun e => negb (is_record name id e)) s)
       else (Some not_found, s);
     EditRecord := fun name id req s =>
       if existsb (is_record name id) s
       then ((Some (of_request id req), None),
             map (fun e => if is_record name id e
                           then (name, of_request id req) else e) s)
       else ((None, Some not_found), s) |}.

Definition config (args : list string)
           (strs : list (string * string)) (ints : list (string * Z))
  : CmdConfig Store :=
  {| NS := "domain";
     Doit := flags strs ints;
     Args := args;
     Domains := DomainsService;
     Display := fun _ => None |}.

Definition start (s : Store) : World Store :=
  {| remote := s; calls := []; displayed := [] |}.

End memory.

(** ** Vocabulary of the statements *)

(** The remote calls logged between two worlds of one run. *)
Definition new_calls {S} (w w' : World S) : list Event :=
  skipn (List.length (calls w)) (calls w').

(** A run result and the calls it logged: a call that answered an error is
    the last call of the run, and its error is what the handler returned. *)
Definition stops_at_error {A} (r : A + exit) (evs : list Event) : Prop :=
  forall pre ev post e,
    evs = pre ++ ev :: post -> ev_err ev = Some e ->
    post = [] /\ r = inr (Err e).

(** The remote state after the [DeleteRecord] calls for [ns], in order. *)
Definition after_deletes {S} (ds : DomainsService S) (domainName : string)
           (ns : list Z) (s : S) : S :=
  fold_left (fun s n => snd (DeleteRecord ds domainName n s)) ns s.

(** The log of successful [DeleteRecord] calls for [ns]. *)
Definition deleted (domainName : string) (ns : list Z) : list Event :=
  map (fun n => {| ev_call := CallDeleteRecord domainName n; ev_err := None |}) ns.

(** The three ways the loop of [RunRecordDelete] over [ids] can end, each
    with the ids it called [DeleteRecord] on and the calls it logged: every
    id was deleted; an id was not a number; a call answered an error. *)
Inductive delete_outcome (domainName : string) (ids : list string)
  : unit + exit -> list Z -> list Event -> Prop :=
| all_deleted ns :
    map strconv.Atoi ids = map Some ns ->
    delete_outcome domainName ids (inl tt) ns (deleted domainName ns)
| bad_id pre i post ns :
    ids = pre ++ i :: post ->
    map strconv.Atoi pre = map Some ns ->
    strconv.Atoi i = None ->
    delete_outcome domainName ids
      (inr (Err (fmt_Errorf "invalid record id %q" i))) ns
      (deleted domainName ns)
| call_failed pre i post ns n e :
    ids = pre ++ i :: post ->
    map strconv.Atoi pre = map Some ns ->
    strconv.Atoi i = Some n ->
    delete_outcome domainName ids (inr (Err e)) (ns ++ [n])
      (deleted domainName ns
       ++ [{| ev_call := CallDeleteRecord domainName n; ev_err := Some e |}]).

(** A created record carries the fields of the request. *)
Definition carries (req : godo.DomainRecordEditRequest) (r : godo.DomainRecord)
  : Prop :=
  godo.rec_Type r = godo.Type_ req /\ godo.rec_Name r = godo.Name req /\
  godo.rec_Data r = godo.Data req /\ godo.rec_Priority r = godo.Priority req /\
  godo.rec_Port r = godo.Port req /\ godo.rec_Weight r = godo.Weight req.

(** A service that keeps what it creates: a record that [CreateRecord]
    answers carries the request, and [Records] of the same domain lists it
    from then on. *)
Definition keeps_created_records {S} (ds : DomainsService S) : Prop :=
  forall name req s r s1,
    CreateRecord ds name req s = ((Some r, None), s1) ->
    carries req r /\
    exists l s2, Records ds name s1 = ((l, None), s2) /\ In r l.

(** ** The flags a handler reads *)

(** The first non-nil error of a sequence of reads. *)
Fixpoint first_error (errs : list (option error)) : option error :=
  match errs with
  | [] => None
  | Some e :: _ => Some e
  | None :: rest => first_error rest
  end.

(** The error results of the flag reads of each handler, in the order of
    the source. *)
Definition reads {S} (h : Handler) (c : CmdConfig S) : list (option error) :=
  match h with
  | HDomainCreate => [snd (GetString (Doit c) (NS c) "ip-address")]
  | HRecordCreate =>
      [snd (GetString (Doit c) (NS c) doctl.ArgRecordType);
       snd (GetString (Doit c) (NS c) doctl.ArgRecordName);
       snd (GetString (Doit c) (NS c) doctl.ArgRecordData);
       snd (GetInt (Doit c) (NS c) doctl.ArgRecordPriority);
       snd (GetInt (Doit c) (NS c) doctl.ArgRecordPort);
       snd (GetInt (Doit c) (NS c) doctl.ArgRecordWeight)]
  | HRecordUpdate =>
      [snd (GetInt (Doit c) (NS c) doctl.ArgRecordID);
       snd (GetString (Doit c) (NS c) doctl.ArgRecordType);
       snd (GetString (Doit c) (NS c) doctl.ArgRecordName);
       snd (GetString (Doit c) (NS c) doctl.ArgRecordData);
       snd (GetInt (Doit c) (NS c) doctl.ArgRecordPriority);
       snd (GetInt (Doit c) (NS c) doctl.ArgRecordPort);
       snd (GetInt (Doit c) (NS c) doctl.ArgRecordWeight)]
  | _ => []
  end.

(** The [drcr] that [RunRecordCreate] and [RunRecordUpdate] build from the
    six record flags. *)
Definition record_request {S} (c : CmdConfig S) : godo.DomainRecordEditRequest :=
  {| godo.Type_ := fst (GetString (Doit c) (NS c) doctl.ArgRecordType);
     godo.Name := fst (GetString (Doit c) (NS c) doctl.ArgRecordName);
     godo.Data := fst (GetString (Doit c) (NS c) doctl.ArgRecordData);
     godo.Priority := fst (GetInt (Doit c) (NS c) doctl.ArgRecordPriority);
     godo.Port := fst (GetInt (Doit c) (NS c) doctl.ArgRecordPort);
     godo.Weight := fst (GetInt (Doit c) (NS c) doctl.ArgRecordWeight) |}.

(** The configuration [c] with another flag store. *)
Definition with_Doit {S} (c : CmdConfig S) (d : Config) : CmdConfig S :=
  {| NS := NS c; Doit := d; Args := Args c;
     Domains := Domains c; Display := Display c |}.

(** A service that keeps the Go convention of its pointer results: no nil
    pointer together with a nil error. *)
Definition answers_pointers {S} (ds : DomainsService S) : Prop :=
  (forall name s, fst (Get ds name s) <> (None, None)) /\
  (forall req s, fst (Create ds req s) <> (None, None)) /\
  (forall name req s, fst (CreateRecord ds name req s) <> (None, None)) /\
  (forall name id req s, fst (EditRecord ds name id req s) <> (None, None)).

(** The operations that answer a pointer. *)
Definition pointer_call (cl : Call) : bool :=
  match cl with
  | CallCreate _ | CallGet _ | CallCreateRecord _ _ | CallEditRecord _ _ _ => true
  | _ => false
  end.

(** Where a returned error can come from. *)
Inductive origin {S} (c : CmdConfig S) (w w' : World S) (e : error) : Prop :=
| from_argument_count :
    e = MissingArgsErr (NS c) -> w' = w -> origin c w w' e
| from_validation text :
    e = errors_New text -> w' = w -> origin c w w' e
| from_record_id i :
    In i (skipn 1 (Args c)) -> strconv.Atoi i = None ->
    e = fmt_Errorf "invalid record id %q" i -> origin c w w' e
| from_string_flag key :
    snd (GetString (Doit c) (NS c) key) = Some e -> w' = w -> origin c w w' e
| from_int_flag key :
    snd (GetInt (Doit c) (NS c) key) = Some e -> w' = w -> origin c w w' e
| from_service pre ev :
    new_calls w w' = pre ++ [ev] -> ev_err ev = Some e -> origin c w w' e
| from_displayer item :
    Display c item = Some e -> displayed w' = displayed w ++ [item] ->
    origin c w w' e.

(** ** The shape of a run of a handler other than [RunRecordDelete] *)

(** The service answered the call [cl], made in the state [s], with a nil
    pointer and a nil error. *)
Definition nil_answer {S} (ds : DomainsService S) (s : S) (cl : Call) : Prop :=
  match cl with
  | CallCreate req => fst (Create ds req s) = (None, None)
  | CallGet name => fst (Get ds name s) = (None, None)
  | CallCreateRecord name req => fst (CreateRecord ds name req s) = (None, None)
  | CallEditRecord name id req => fst (EditRecord ds name id req s) = (None, None)
  | _ => False
  end.

(** An error returned before any remote call. *)
Definition early {S} (c : CmdConfig S) (e : error) : Prop :=
  e = MissingArgsErr (NS c) \/
  (exists text, e = errors_New text) \/
  (exists key, snd (GetString (Doit c) (NS c) key) = Some e) \/
  (exists key, snd (GetInt (Doit c) (NS c) key) = Some e).

(** How a handler ends after its one remote call when it displays
    nothing: with the error of the call, with a panic on a nil pointer, or,
    for [RunDomainDelete], with no error. *)
Definition call_result {S} (h : Handler) (c : CmdConfig S) (w : World S)
           (ev : Event) (r : unit + exit) : Prop :=
  (exists e, ev_err ev = Some e /\ r = inr (Err e)) \/
  (ev_err ev = None /\ nil_answer (Domains c) (remote w) (ev_call ev) /\
   r = inr Panic) \/
  (ev_err ev = None /\ h = HDomainDelete /\ r = inl tt).

(** The kind of item each handler displays. *)
Definition displays (h : Handler) (item : Displayable) : bool :=
  match h, item with
  | (HDomainCreate | HDomainList | HDomainGet), domain _ => true
  | (HRecordList | HRecordCreate | HRecordUpdate), domainRecord _ => true
  | _, _ => false
  end.

(** A run stops before any call; or makes one call and displays nothing;
    or makes one call that answers no error and displays one item, the
    result being the displayer's. *)
Inductive single_run {S} (h : Handler) (c : CmdConfig S) (w : World S)
  : unit + exit -> World S -> Prop :=
| stopped e :
    early c e -> single_run h c w (inr (Err e)) w
| called ev s' r :
    call_result h c w ev r ->
    single_run h c w r
      {| remote := s'; calls := calls w ++ [ev]; displayed := displayed w |}
| shown ev s' item :
    ev_err ev = None ->
    displays h item = true ->
    single_run h c w
      (match Display c item with Some e => inr (Err e) | None => inl tt end)
      {| remote := s'; calls := calls w ++ [ev];
         displayed := displayed w ++ [item] |}.

(** ** The command tree of [Domain] *)

Inductive io_Writer := Writer.

Inductive cmdOption :=
| aliasOpt (a : string)
| displayerType (d : Displayable)
| docCategories (l : list string).

Inductive flagOpt := requiredOpt.

Inductive FlagDecl :=
| AddStringFlag (name dflt desc : string) (opts : list flagOpt)
| AddIntFlag (name : string) (dflt : Z) (desc : string) (opts : list flagOpt).

(** A command is a group, as [Domain] writes the two [&Command{...}]
    literals, with the commands added to it in the order of the calls; or
    it is what one [CmdBuilder] call makes, with the runner, the usage
    line, the description, the output, the options and the flags that the
    following [AddStringFlag] and [AddIntFlag] calls add to it. *)
#[warnings="-register-all"]
Inductive Command :=
| Group (Use Short Long : string) (DocCategories : list string)
        (IsIndex : bool) (commands : list Command)
| CmdBuilder (cr : Handler) (cliText desc : string) (out : io_Writer)
             (options : list cmdOption) (flagset : list FlagDecl).

(** [Domain ()], with the flag name [doctl.ArgDomainName] as a parameter. *)
Definition Domain (ArgDomainName : string) : Command :=
  Group "domain" "domain commands" "domain is used to access domain commands"
        ["domain"] true
    [ CmdBuilder HDomainCreate "create <domain>" "create domain" Writer
        [aliasOpt "c"; displayerType (domain []); docCategories ["domain"]]
        [AddStringFlag doctl.ArgIPAddress "" "IP address" [requiredOpt]];
      CmdBuilder HDomainList "list" "list domains" Writer
        [aliasOpt "ls"; displayerType (domain []); docCategories ["domain"]]
        [];
      CmdBuilder HDomainGet "get <domain>" "get domain" Writer
        [aliasOpt "g"; displayerType (domain []); docCategories ["domain"]]
        [];
      CmdBuilder HDomainDelete "delete <domain>" "delete droplet" Writer
        [aliasOpt "g"]
        [];
      Group "records" "domain record commands"
            "commands for interacting with an individual domain" [] false
        [ CmdBuilder HRecordList "list <domain>" "list records" Writer
            [aliasOpt "ls"; displayerType (domainRecord []);
             docCategories ["domain"]]
            [AddStringFlag ArgDomainName "" "Domain name" []];
          CmdBuilder HRecordCreate "create <domain>" "create record" Writer
            [aliasOpt "c"; displayerType (domainRecord []);
             docCategories ["domain"]]
            [AddStringFlag doctl.ArgRecordType "" "Record type" [];
             AddStringFlag doctl.ArgRecordName "" "Record name" [];
             AddStringFlag doctl.ArgRecordData "" "Record data" [];
             AddIntFlag doctl.ArgRecordPriority 0 "Record priority" [];
             AddIntFlag doctl.ArgRecordPort 0 "Record port" [];
             AddIntFlag doctl.ArgRecordWeight 0 "Record weight" []];
          CmdBuilder HRecordDelete "delete <domain> <record id...>"
            "delete record" Writer
            [aliasOpt "d"; docCategories ["domain"]]
            [];
          CmdBuilder HRecordUpdate "update <domain>" "update record" Writer
            [aliasOpt "u"; displayerType (domainRecord []);
             docCategories ["domain"]]
            [AddIntFlag doctl.ArgRecordID 0 "Record ID" [];
             AddStringFlag doctl.ArgRecordType "" "Record type" [];
             AddStringFlag doctl.ArgRecordName "" "Record name" [];
             AddStringFlag doctl.ArgRecordData "" "Record data" [];
             AddIntFlag doctl.ArgRecordPriority 0 "Record priority" [];
             AddIntFlag doctl.ArgRecordPort 0 "Record port" [];
             AddIntFlag doctl.ArgRecordWeight 0 "Record weight" []] ] ].

(** The runnable commands of a tree, in order. *)
Fixpoint runnable (cmd : Command) : list Command :=
  match cmd with
  | Group _ _ _ _ _ commands => flat_map runnable commands
  | CmdBuilder _ _ _ _ _ _ => [cmd]
  end.

(** The number of positional arguments a usage line names: its [<]. *)
Fixpoint placeholders (cliText : string) : nat :=
  match cliText with
  | EmptyString => 0
  | String a rest =>
      (if Ascii.eqb a "<"%char then 1 else 0) + placeholders rest
  end.

(** Two flag stores read the flag of a declaration alike. *)
Definition same_flag (ns : string) (d d' : Config) (f : FlagDecl) : Prop :=
  match f with
  | AddStringFlag name _ _ _ => GetString d ns name = GetString d' ns name
  | AddIntFlag name _ _ _ => GetInt d ns name = GetInt d' ns name
  end.

(** An item is of the kind of a declared displayer type. *)
Definition same_kind (d item : Displayable) : bool :=
  match d, item with
  | domain _, domain _ => true
  | domainRecord _, domainRecord _ => true
  | _, _ => false
  end.

(** ** Proof tactics *)

(** Unfold a handler down to the state it threads. *)
Ltac unfold_body :=
  unfold RunDomainCreate, RunDomainList, RunDomainGet, RunDomainDelete,
         RunRecordList, RunRecordCreate, RunRecordDelete, RunRecordUpdate,
         invoke_err, attempt, index, deref, display, invoke, return_if, check,
         Return, bind, leave, ret.

(** Case analysis on the innermost scrutinee of the goal, again and again:
    the run of a body is followed branch by branch. *)
Ltac case_split :=
  repeat (match goal with
          | |- context [match ?x with _ => _ end] =>
              lazymatch x with
              | context [match _ with _ => _ end] => fail
              | _ => destruct x eqn:?
              end
          end; cbn beta iota).

(** The run of a handler on each shape of the argument list. *)
Ltac by_arguments c :=
  let HA := fresh "HA" in
  destruct (Args c) as [|? [|? ?]] eqn:HA;
  unfold_body; rewrite ?HA;
  cbn [List.length Nat.eqb Nat.ltb Nat.leb negb nth_error skipn];
  case_split.

(** A command of the tree of [Domain], one command at a time. *)
Ltac each_command H :=
  simpl in H;
  repeat match type of H with
         | _ \/ _ => destruct H as [H | H]
         end;
  try contradiction; inversion H; subst; clear H.

(** ** Properties of the handlers *)

Lemma new_calls_app {S} (w w' : World S) (evs : list Event) :
  calls w' = calls w ++ evs -> new_calls w w' = evs.
Proof.
  intros H. unfold new_calls. rewrite H.
  rewrite skipn_app, skipn_all, Nat.sub_diag. reflexivity.
Qed.

Lemma new_calls_same {S} (w : World S) : new_calls w w = [].
Proof. apply new_calls_app. now rewrite app_nil_r. Qed.

(** With no argument at all, every handler that takes some answers the
    missing-arguments error in the world it started from. *)
Lemma no_argument {S} (h : Handler) (c : CmdConfig S) (w : World S) :
  Args c = [] -> required_args h <> 0 ->
  run h c w = (inr (Err (MissingArgsErr (NS c))), w).
Proof.
  intros HA Hh.
  destruct h; simpl in Hh; try congruence;
    simpl; unfold_body; rewrite HA; reflexivity.
Qed.

(** With two arguments or more, every single-argument handler does the
    same. *)
Lemma several_arguments {S} (h : Handler) (c : CmdConfig S) (w : World S)
      (a b : string) (l : list string) :
  Args c = a :: b :: l -> single_argument h = true ->
  run h c w = (inr (Err (MissingArgsErr (NS c))), w).
Proof.
  intros HA Hh.
  destruct h; simpl in Hh; try discriminate;
    simpl; unfold_body; rewrite HA; reflexivity.
Qed.

(** [RunRecordDelete] with the domain alone. *)
Lemma record_delete_one_argument {S} (c : CmdConfig S) (w : World S) (a : string) :
  Args c = [a] ->
  RunRecordDelete c w = (inr (Err (MissingArgsErr (NS c))), w).
Proof. intros HA. unfold_body. rewrite HA. reflexivity. Qed.

(** C1.  A handler that is given fewer positional arguments than its
    command requires returns the missing-arguments error; the world it
    leaves is the world it found, so no remote operation was invoked (and
    nothing was displayed). *)
Theorem too_few_arguments {S} (h : Handler) (c : CmdConfig S) (w : World S) :
  List.length (Args c) < required_args h ->
  run h c w = (inr (Err (MissingArgsErr (NS c))), w) /\
  kind_of (MissingArgsErr (NS c)) = MissingArguments /\
  new_calls w (snd (run h c w)) = [].
Proof.
  intros Hlen.
  assert (E : run h c w = (inr (Err (MissingArgsErr (NS c))), w)).
  { destruct (Args c) as [|a [|b l]] eqn:HA; simpl in Hlen.
    - apply no_argument; [assumption | lia].
    - destruct h; simpl in Hlen; try lia.
      apply record_delete_one_argument with (a := a); assumption.
    - destruct h; simpl in Hlen; lia. }
  rewrite E. simpl. repeat split. apply new_calls_same.
Qed.

Lemma too_few_arguments_witness :
  let c := mocks.config mocks.quiet ["example.com"] [] [] in
  List.length (Args c) < required_args HRecordDelete /\
  run HRecordDelete c mocks.start
  = (inr (Err (MissingArgsErr "domain")), mocks.start).
Proof.
  split; [simpl; lia |].
  apply (too_few_arguments HRecordDelete
           (mocks.config mocks.quiet ["example.com"] [] []) mocks.start).
  simpl; lia.
Defined.

(** C9.  A single-argument handler that is given more than one positional
    argument returns the missing-arguments error as well, and invokes no
    remote operation: the test is on a count other than one. *)
Theorem too_many_arguments {S} (h : Handler) (c : CmdConfig S) (w : World S) :
  single_argument h = true ->
  1 < List.length (Args c) ->
  run h c w = (inr (Err (MissingArgsErr (NS c))), w) /\
  kind_of (MissingArgsErr (NS c)) = MissingArguments /\
  new_calls w (snd (run h c w)) = [].
Proof.
  intros Hh Hlen.
  destruct (Args c) as [|a [|b l]] eqn:HA; simpl in Hlen; try lia.
  rewrite (several_arguments h c w a b l HA Hh). simpl.
  repeat split. apply new_calls_same.
Qed.

Lemma too_many_arguments_witness :
  let c := mocks.config mocks.quiet ["example.com"; "example.org"] [] [] in
  single_argument HDomainGet = true /\
  1 < List.length (Args c) /\
  run HDomainGet c mocks.start
  = (inr (Err (MissingArgsErr "domain")), mocks.start).
Proof.
  split; [reflexivity |]. split; [simpl; lia |].
  apply (too_many_arguments HDomainGet
           (mocks.config mocks.quiet ["example.com"; "example.org"] [] [])
           mocks.start); [reflexivity | simpl; lia].
Defined.

(** *** The loop of [RunRecordDelete] *)

Lemma deleted_no_error (domainName : string) (ns : list Z) (ev : Event) :
  In ev (deleted domainName ns) -> ev_err ev = None.
Proof.
  unfold deleted. rewrite in_map_iff. intros [n [<- _]]. reflexivity.
Qed.

Lemma split_at_last {A} (l pre post : list A) (x y : A) :
  l ++ [x] = pre ++ y :: post ->
  (post = [] /\ x = y /\ l = pre) \/ In y l.
Proof.
  intros H. destruct (exists_last (l := y :: post)) as [post' [z Hz]];
    [discriminate |].
  destruct post as [|p post].
  - left. apply app_inj_tail in H. destruct H; auto.
  - right. destruct (exists_last (l := p :: post)) as [q [z' Hq]];
      [discriminate |].
    rewrite Hq in H.
    change (l ++ [x] = pre ++ [y] ++ q ++ [z']) in H.
    rewrite !app_assoc in H. apply app_inj_tail in H. destruct H as [-> _].
    rewrite in_app_iff. left. rewrite in_app_iff. right. now left.
Qed.

Lemma delete_outcome_stops (domainName : string) (ids : list string)
      (r : unit + exit) (ns : list Z) (evs : list Event) :
  delete_outcome domainName ids r ns evs -> stops_at_error r evs.
Proof.
  intros H pre ev post e Hsplit Herr.
  assert (Hin : forall l, l = pre ++ ev :: post -> In ev l).
  { intros l ->. rewrite in_app_iff. right. now left. }
  destruct H.
  - apply Hin, deleted_no_error in Hsplit. congruence.
  - apply Hin, deleted_no_error in Hsplit. congruence.
  - apply split_at_last in Hsplit. destruct Hsplit as [[-> [<- _]] | Hev].
    + simpl in Herr. split; congruence.
    + apply deleted_no_error in Hev. congruence.
Qed.

Lemma delete_each_outcome {S} (ds : DomainsService S) (domainName : string)
      (ids : list string) (w : World S) :
  exists ns evs,
    delete_outcome domainName ids (fst (delete_each ds domainName ids w)) ns evs /\
    calls (snd (delete_each ds domainName ids w)) = calls w ++ evs /\
    remote (snd (delete_each ds domainName ids w))
    = after_deletes ds domainName ns (remote w) /\
    displayed (snd (delete_each ds domainName ids w)) = displayed w.
Proof.
  revert w. induction ids as [|i rest IH]; intros w.
  - exists [], []. simpl. repeat split.
    + now apply all_deleted.
    + now rewrite app_nil_r.
  - simpl. destruct (strconv.Atoi i) as [n|] eqn:Hi.
    + unfold invoke_err, invoke, bind, check, Return, leave, ret.
      destruct (DeleteRecord ds domainName n (remote w)) as [[e|] s1] eqn:Hd;
        simpl.
      * exists ([] ++ [n]),
          (deleted domainName []
           ++ [{| ev_call := CallDeleteRecord domainName n; ev_err := Some e |}]).
        repeat split.
        -- apply call_failed with (pre := []) (i := i) (post := rest); auto.
        -- unfold after_deletes. simpl. now rewrite Hd.
      * match goal with
        | |- context [delete_each ds domainName rest ?w1] =>
            destruct (IH w1) as [ns [evs [Ho [Hc [Hr Hdisp]]]]];
            destruct (delete_each ds domainName rest w1) as [r w'] eqn:Hrun
        end.
        simpl in *.
        assert (Hstate : remote w' = after_deletes ds domainName (n :: ns) (remote w)).
        { rewrite Hr. unfold after_deletes. simpl. now rewrite Hd. }
        assert (Hlog : forall evs',
                   calls w' = (calls w ++ [{| ev_call := CallDeleteRecord domainName n;
                                            ev_err := None |}]) ++ evs' ->
                   calls w' = calls w ++ deleted domainName [n] ++ evs').
        { intros evs' ->. now rewrite <- app_assoc. }
        inversion Ho; subst.
        -- exists (n :: ns), (deleted domainName (n :: ns)).
           repeat split; auto; [| apply Hlog in Hc; exact Hc].
           apply all_deleted. simpl. now rewrite Hi; f_equal.
        -- exists (n :: ns), (deleted domainName (n :: ns)).
           repeat split; auto; [| apply Hlog in Hc; exact Hc].
           apply bad_id with (pre := i :: pre) (post := post); auto.
           simpl. now rewrite Hi; f_equal.
        -- exists ((n :: ns0) ++ [n0]),
             (deleted domainName (n :: ns0)
              ++ [{| ev_call := CallDeleteRecord domainName n0; ev_err := Some e |}]).
           repeat split; auto.
           ++ apply call_failed with (pre := i :: pre) (i := i0) (post := post); auto.
              simpl. now rewrite Hi; f_equal.
           ++ apply Hlog in Hc. exact Hc.
    + exists [], []. unfold Return, leave. simpl. repeat split.
      * apply bad_id with (pre := []) (post := rest); auto.
      * now rewrite app_nil_r.
Qed.

Lemma RunRecordDelete_loop {S} (c : CmdConfig S) (w : World S)
      (domainName i : string) (rest : list string) :
  Args c = domainName :: i :: rest ->
  RunRecordDelete c w = delete_each (Domains c) domainName (i :: rest) w.
Proof.
  intros HA. unfold RunRecordDelete, bind, return_if, index, ret.
  rewrite HA. cbn [List.length Nat.ltb Nat.leb nth_error skipn].
  destruct (delete_each (Domains c) domainName (i :: rest) w) as [[[]|x] w'];
    reflexivity.
Qed.

(** Every run of [RunRecordDelete] on a domain and a list of ids ends in one
    of the three ways of [delete_outcome]; the remote state it leaves is the
    state after the calls it made, and nothing is displayed. *)
Lemma RunRecordDelete_outcome {S} (c : CmdConfig S) (w : World S)
      (domainName : string) (ids : list string) :
  Args c = domainName :: ids ->
  ids <> [] ->
  exists ns evs,
    delete_outcome domainName ids (fst (RunRecordDelete c w)) ns evs /\
    new_calls w (snd (RunRecordDelete c w)) = evs /\
    remote (snd (RunRecordDelete c w))
    = after_deletes (Domains c) domainName ns (remote w) /\
    displayed (snd (RunRecordDelete c w)) = displayed w.
Proof.
  intros HA Hne. destruct ids as [|i rest]; [congruence |].
  rewrite (RunRecordDelete_loop c w domainName i rest HA).
  destruct (delete_each_outcome (Domains c) domainName (i :: rest) w)
    as [ns [evs [Ho [Hc [Hr Hd]]]]].
  exists ns, evs. repeat split; auto. now apply new_calls_app.
Qed.

(** *** One remote call at most in the other handlers *)

Lemma stops_at_error_nil {A} (r : A + exit) : stops_at_error r [].
Proof.
  intros pre ev post e H _. now apply app_cons_not_nil in H.
Qed.

Lemma stops_at_error_one {A} (r : A + exit) (ev : Event) :
  (forall e, ev_err ev = Some e -> r = inr (Err e)) ->
  stops_at_error r [ev].
Proof.
  intros H pre ev' post e Hs He.
  destruct pre as [|p pre].
  - inversion Hs; subst. split; auto.
  - inversion Hs. destruct pre; discriminate.
Qed.

(** The calls a handler logs extend the log it found, and a call that
    answered an error ends the run with that error. *)
Lemma run_log {S} (h : Handler) (c : CmdConfig S) (w : World S) :
  exists evs,
    calls (snd (run h c w)) = calls w ++ evs /\
    stops_at_error (fst (run h c w)) evs.
Proof.
  destruct h; simpl.
  7: { destruct (Args c) as [|domainName [|i rest]] eqn:HA.
       - unfold_body. rewrite HA. exists []. simpl.
         split; [now rewrite app_nil_r | apply stops_at_error_nil].
       - unfold_body. rewrite HA. exists []. simpl.
         split; [now rewrite app_nil_r | apply stops_at_error_nil].
       - rewrite (RunRecordDelete_loop c w domainName i rest HA).
         destruct (delete_each_outcome (Domains c) domainName (i :: rest) w)
           as [ns [evs [Ho [Hc _]]]].
         exists evs. split; [assumption |].
         eapply delete_outcome_stops; eassumption. }
  all: unfold_body; case_split;
    first [ exists []; simpl;
            split; [now rewrite app_nil_r | apply stops_at_error_nil]
          | eexists; simpl;
            split; [reflexivity
                   | apply stops_at_error_one; simpl; intros; congruence] ].
Qed.

(** *** What an outcome of the loop says about the ids *)

Lemma parsed_all (l : list string) (ns : list Z) :
  map strconv.Atoi l = map Some ns ->
  forall j, In j l -> strconv.Atoi j <> None.
Proof.
  revert ns. induction l as [|a l IH]; intros [|n ns] H j Hj;
    simpl in *; try contradiction; try discriminate.
  inversion H. destruct Hj as [<- | Hj]; [congruence | eauto].
Qed.

Lemma map_calls_deleted (domainName : string) (ns : list Z) :
  map ev_call (deleted domainName ns) = map (CallDeleteRecord domainName) ns.
Proof. unfold deleted. rewrite map_map. reflexivity. Qed.

Lemma firstn_exact {A} (l l' : list A) : firstn (List.length l) (l ++ l') = l.
Proof.
  rewrite firstn_app, Nat.sub_diag, firstn_all. simpl. apply app_nil_r.
Qed.

(** The calls of an outcome are the [DeleteRecord] calls for the numbers of
    a prefix of the ids, in the order of the ids; the prefix is the whole
    list when the loop ran to its end. *)
Lemma delete_outcome_prefix (domainName : string) (ids : list string)
      (r : unit + exit) (ns : list Z) (evs : list Event) :
  delete_outcome domainName ids r ns evs ->
  exists k,
    k <= List.length ids /\
    map strconv.Atoi (firstn k ids) = map Some ns /\
    map ev_call evs = map (CallDeleteRecord domainName) ns /\
    (r = inl tt -> k = List.length ids).
Proof.
  intros H. destruct H.
  - exists (List.length ids). rewrite firstn_all, map_calls_deleted. auto.
  - subst ids. exists (List.length pre).
    rewrite firstn_exact, map_calls_deleted, length_app.
    repeat split; auto; [lia | discriminate].
  - subst ids. exists (List.length (pre ++ [i])).
    replace (pre ++ i :: post) with ((pre ++ [i]) ++ post)
      by (rewrite <- app_assoc; reflexivity).
    rewrite firstn_exact, !map_app, map_calls_deleted, !length_app.
    simpl. repeat split; try discriminate; try lia. congruence.
Qed.

(** A prefix of well-formed ids ends before the first malformed one. *)
Lemma prefix_before_bad (pre' pre post rest : list string) (i : string) :
  pre ++ i :: post = pre' ++ rest ->
  (forall j, In j pre' -> strconv.Atoi j <> None) ->
  strconv.Atoi i = None ->
  exists mid, pre = pre' ++ mid.
Proof.
  revert pre. induction pre' as [|a p IH]; intros pre H Hall Hi.
  - exists pre. reflexivity.
  - destruct pre as [|b pre]; simpl in H; inversion H; subst.
    + exfalso. apply (Hall a); [now left | assumption].
    + destruct (IH pre) as [mid ->]; auto.
      * intros j Hj. apply Hall. now right.
      * exists mid. reflexivity.
Qed.

Lemma delete_outcome_before_bad (domainName : string)
      (pre post : list string) (i : string)
      (r : unit + exit) (ns : list Z) (evs : list Event) :
  delete_outcome domainName (pre ++ i :: post) r ns evs ->
  strconv.Atoi i = None ->
  (exists k,
      k <= List.length pre /\
      map strconv.Atoi (firstn k pre) = map Some ns /\
      map ev_call evs = map (CallDeleteRecord domainName) ns) /\
  ((forall j, In j pre -> strconv.Atoi j <> None) ->
   (forall ev, In ev evs -> ev_err ev = None) ->
   r = inr (Err (fmt_Errorf "invalid record id %q" i))).
Proof.
  intros H Hi. inversion H; subst.
  - exfalso. apply (parsed_all _ _ H0 i); [| assumption].
    rewrite in_app_iff. right. now left.
  - destruct (prefix_before_bad pre0 pre post (i0 :: post0) i H0) as [mid ->];
      [eapply parsed_all; eassumption | assumption |].
    split.
    + exists (List.length pre0).
      rewrite firstn_exact, map_calls_deleted, length_app.
      repeat split; auto. lia.
    + intros Hfirst _. rewrite <- app_assoc in H0. apply app_inv_head in H0.
      destruct mid as [|m mid]; simpl in H0; inversion H0; subst.
      * reflexivity.
      * exfalso. apply (Hfirst i0); [| assumption].
        rewrite in_app_iff. right. now left.
  - assert (Hall : map strconv.Atoi (pre0 ++ [i0]) = map Some (ns0 ++ [n])).
    { rewrite !map_app. simpl. congruence. }
    destruct (prefix_before_bad (pre0 ++ [i0]) pre post post0 i) as [mid ->];
      [rewrite <- app_assoc; assumption
      | eapply parsed_all; eassumption | assumption |].
    split.
    + exists (List.length (pre0 ++ [i0])).
      rewrite firstn_exact, Hall, !map_app, map_calls_deleted, !length_app.
      repeat split; auto. lia.
    + intros _ Hok. exfalso.
      specialize (Hok {| ev_call := CallDeleteRecord domainName n;
                         ev_err := Some e |}).
      rewrite in_app_iff in Hok. simpl in Hok.
      assert (Some e = None) by auto. discriminate.
Qed.

(** ** The claims about deleting records *)

(** C2.  Whatever list of ids [RunRecordDelete] is given after the domain,
    it calls [DeleteRecord] on the ids one by one, in the order of the
    list, until the list ends or an id fails, and the log of the run says
    which.  Either every id was called and answered no error, and the
    handler returns none.  Or the call for some id answered an error: then
    every id before it was called and answered no error, that call is the
    last of the log, no id after it is called, and the handler returns that
    very error.  Or some id is not a number: then every id before it was
    called and answered no error, and nothing else is called.  (Without any
    id the handler returns the missing-arguments error.)  In every case a
    call that answered an error is the last call and its error is what the
    handler returns. *)
Theorem record_delete_in_order {S} (c : CmdConfig S) (w : World S)
        (domainName : string) (ids : list string) :
  Args c = domainName :: ids ->
  ((ids = [] /\
    RunRecordDelete c w = (inr (Err (MissingArgsErr (NS c))), w))
   \/
   (exists ns,
       map strconv.Atoi ids = map Some ns /\
       new_calls w (snd (RunRecordDelete c w)) = deleted domainName ns /\
       fst (RunRecordDelete c w) = inl tt)
   \/
   (exists pre i post ns n e,
       ids = pre ++ i :: post /\
       map strconv.Atoi pre = map Some ns /\
       strconv.Atoi i = Some n /\
       new_calls w (snd (RunRecordDelete c w))
       = deleted domainName ns
         ++ [{| ev_call := CallDeleteRecord domainName n; ev_err := Some e |}] /\
       fst (RunRecordDelete c w) = inr (Err e))
   \/
   (exists pre i post ns,
       ids = pre ++ i :: post /\
       map strconv.Atoi pre = map Some ns /\
       strconv.Atoi i = None /\
       new_calls w (snd (RunRecordDelete c w)) = deleted domainName ns /\
       fst (RunRecordDelete c w)
       = inr (Err (fmt_Errorf "invalid record id %q" i))))
  /\
  stops_at_error (fst (RunRecordDelete c w))
                 (new_calls w (snd (RunRecordDelete c w))).
Proof.
  intros HA. destruct ids as [|i0 rest].
  - rewrite (record_delete_one_argument c w domainName HA). simpl.
    rewrite new_calls_same. split; [| apply stops_at_error_nil].
    left. split; reflexivity.
  - destruct (RunRecordDelete_outcome c w domainName (i0 :: rest) HA)
      as [ns [evs [Ho [Hc _]]]]; [discriminate |].
    rewrite Hc. split; [| eapply delete_outcome_stops; eassumption].
    right.
    inversion Ho as [ns' Hp Hr | pre i post ns' Hi Hp Hb Hr
                     | pre i post ns' n e Hi Hp Hb Hr]; subst.
    + left. exists ns. auto.
    + right. right. exists pre, i, post, ns. auto.
    + right. left. exists pre, i, post, ns', n, e. auto.
Qed.

(** A failing second deletion out of three: two calls, the error comes
    back, the third id is never tried. *)
Lemma record_delete_in_order_witness :
  let a := {| mocks.on_List := (mock.Nil, mock.Nil);
              mocks.on_Get := (None, None);
              mocks.on_Create := (None, None);
              mocks.on_Delete := None;
              mocks.on_Records := ([], None);
              mocks.on_CreateRecord := (None, None);
              mocks.on_DeleteRecord :=
                fun id => if (id =? 7)%Z then Some (RemoteErr "no such record")
                          else None;
              mocks.on_EditRecord := (None, None) |} in
  let c := mocks.config a ["example.com"; "3"; "7"; "9"] [] [] in
  let ids := ["3"; "7"; "9"] in
  Args c = "example.com" :: ids /\
  map ev_call (new_calls mocks.start (snd (RunRecordDelete c mocks.start)))
  = [CallDeleteRecord "example.com" 3; CallDeleteRecord "example.com" 7] /\
  fst (RunRecordDelete c mocks.start) = inr (Err (RemoteErr "no such record")) /\
  ((ids = [] /\
    RunRecordDelete c mocks.start
    = (inr (Err (MissingArgsErr (NS c))), mocks.start))
   \/
   (exists ns,
       map strconv.Atoi ids = map Some ns /\
       new_calls mocks.start (snd (RunRecordDelete c mocks.start))
       = deleted "example.com" ns /\
       fst (RunRecordDelete c mocks.start) = inl tt)
   \/
   (exists pre i post ns n e,
       ids = pre ++ i :: post /\
       map strconv.Atoi pre = map Some ns /\
       strconv.Atoi i = Some n /\
       new_calls mocks.start (snd (RunRecordDelete c mocks.start))
       = deleted "example.com" ns
         ++ [{| ev_call := CallDeleteRecord "example.com" n;
                ev_err := Some e |}] /\
       fst (RunRecordDelete c mocks.start) = inr (Err e))
   \/
   (exists pre i post ns,
       ids = pre ++ i :: post /\
       map strconv.Atoi pre = map Some ns /\
       strconv.Atoi i = None /\
       new_calls mocks.start (snd (RunRecordDelete c mocks.start))
       = deleted "example.com" ns /\
       fst (RunRecordDelete c mocks.start)
       = inr (Err (fmt_Errorf "invalid record id %q" i))))
  /\
  stops_at_error (fst (RunRecordDelete c mocks.start))
                 (new_calls mocks.start (snd (RunRecordDelete c mocks.start))).
Proof.
  intros a c ids. split; [reflexivity |]. split; [reflexivity |].
  split; [reflexivity |].
  apply (record_delete_in_order c mocks.start "example.com" ids).
  reflexivity.
Defined.

(** C6, as the code has it.  Take a malformed id of a [RunRecordDelete]
    invocation.  [DeleteRecord] is called for ids before it only: never for
    it, never for an id after it.  When it is the first malformed id and no
    call before it answered an error, the handler returns the invalid-input
    error that names it. *)
Theorem record_delete_bad_id {S} (c : CmdConfig S) (w : World S)
        (domainName i : string) (pre post : list string) :
  Args c = domainName :: pre ++ i :: post ->
  strconv.Atoi i = None ->
  (exists k ns,
      k <= List.length pre /\
      map strconv.Atoi (firstn k pre) = map Some ns /\
      map ev_call (new_calls w (snd (RunRecordDelete c w)))
      = map (CallDeleteRecord domainName) ns) /\
  ((forall j, In j pre -> strconv.Atoi j <> None) ->
   (forall ev, In ev (new_calls w (snd (RunRecordDelete c w))) ->
               ev_err ev = None) ->
   fst (RunRecordDelete c w)
   = inr (Err (fmt_Errorf "invalid record id %q" i)) /\
   kind_of (fmt_Errorf "invalid record id %q" i) = InvalidInput).
Proof.
  intros HA Hi.
  destruct (RunRecordDelete_outcome c w domainName (pre ++ i :: post) HA)
    as [ns [evs [Ho [Hc _]]]].
  { intros H. symmetry in H. now apply app_cons_not_nil in H. }
  rewrite Hc.
  destruct (delete_outcome_before_bad _ _ _ _ _ _ _ Ho Hi) as [[k Hk] Hfirst].
  split.
  - exists k, ns. exact Hk.
  - intros H1 H2. split; [auto | reflexivity].
Qed.

Lemma record_delete_bad_id_witness :
  let c := mocks.config mocks.quiet ["example.com"; "12"; "1x"; "13"] [] [] in
  Args c = "example.com" :: ["12"] ++ "1x" :: ["13"] /\
  strconv.Atoi "1x" = None /\
  map ev_call (new_calls mocks.start (snd (RunRecordDelete c mocks.start)))
  = [CallDeleteRecord "example.com" 12] /\
  fst (RunRecordDelete c mocks.start)
  = inr (Err (fmt_Errorf "invalid record id %q" "1x")).
Proof.
  intros c. split; [reflexivity |]. split; [reflexivity |].
  split; [reflexivity |].
  apply (record_delete_bad_id c mocks.start "example.com" "1x" ["12"] ["13"]).
  - reflexivity.
  - reflexivity.
  - intros j [<- | []]. discriminate.
  - intros ev [<- | []]. reflexivity.
Defined.

(** C6 as it is worded fails on the second of two malformed ids: the error
    names the first one. *)
Lemma record_delete_second_bad_id :
  let c := mocks.config mocks.quiet ["example.com"; "x"; "y"] [] [] in
  In "y" (skipn 1 (Args c)) /\
  strconv.Atoi "y" = None /\
  fst (RunRecordDelete c mocks.start)
  = inr (Err (fmt_Errorf "invalid record id %q" "x")) /\
  fst (RunRecordDelete c mocks.start)
  <> inr (Err (fmt_Errorf "invalid record id %q" "y")).
Proof.
  intros c. split; [simpl; auto |]. split; [reflexivity |].
  split; [reflexivity | discriminate].
Qed.

(** C10.  When [RunRecordDelete] returns an error on a list of ids, the
    error belongs to some id [i] of the list, the k-th.  The calls logged
    for the k-1 ids before it are successful [DeleteRecord] calls, and the
    log holds nothing after them but the failing call itself, if the error
    is its answer: no call undoes them.  The remote state the handler
    leaves is the state after those deletions (and after the failing call):
    it is not the state the handler found. *)
Theorem record_delete_partial_effect {S} (c : CmdConfig S) (w : World S)
        (domainName : string) (ids : list string) (e : error) :
  Args c = domainName :: ids ->
  ids <> [] ->
  fst (RunRecordDelete c w) = inr (Err e) ->
  exists pre i post ns,
    ids = pre ++ i :: post /\
    map strconv.Atoi pre = map Some ns /\
    ((strconv.Atoi i = None /\
      e = fmt_Errorf "invalid record id %q" i /\
      new_calls w (snd (RunRecordDelete c w)) = deleted domainName ns /\
      remote (snd (RunRecordDelete c w))
      = after_deletes (Domains c) domainName ns (remote w))
     \/
     (exists n,
         strconv.Atoi i = Some n /\
         new_calls w (snd (RunRecordDelete c w))
         = deleted domainName ns
           ++ [{| ev_call := CallDeleteRecord domainName n; ev_err := Some e |}] /\
         remote (snd (RunRecordDelete c w))
         = snd (DeleteRecord (Domains c) domainName n
                  (after_deletes (Domains c) domainName ns (remote w))))).
Proof.
  intros HA Hne Herr.
  destruct (RunRecordDelete_outcome c w domainName ids HA Hne)
    as [ns [evs [Ho [Hc [Hr _]]]]].
  rewrite Hc, Hr, Herr in *. clear Hc Hr Herr.
  inversion Ho; subst.
  - exists pre, i, post, ns. split; [reflexivity |]. split; [assumption |].
    left. auto.
  - exists pre, i, post, ns0. split; [reflexivity |]. split; [assumption |].
    right. exists n. split; [assumption |]. split; [reflexivity |].
    unfold after_deletes. rewrite fold_left_app. reflexivity.
Qed.

(** Record 1 is deleted, record 5 does not exist: the handler returns the
    error and record 1 stays deleted. *)
Lemma record_delete_partial_effect_witness :
  let r1 := memory.of_request 1 {| godo.Type_ := "A"; godo.Name := "www";
                                   godo.Data := "10.0.0.1"; godo.Priority := 0;
                                   godo.Port := 0; godo.Weight := 0 |} in
  let r2 := memory.of_request 2 {| godo.Type_ := "MX"; godo.Name := "mail";
                                   godo.Data := "10.0.0.2"; godo.Priority := 10;
                                   godo.Port := 0; godo.Weight := 0 |} in
  let w := memory.start [("example.com", r1); ("example.com", r2)] in
  let c := memory.config ["example.com"; "1"; "5"; "2"] [] [] in
  Args c = "example.com" :: ["1"; "5"; "2"] /\
  fst (RunRecordDelete c w) = inr (Err memory.not_found) /\
  remote (snd (RunRecordDelete c w)) = [("example.com", r2)] /\
  remote (snd (RunRecordDelete c w)) <> remote w /\
  exists pre i post ns,
    ["1"; "5"; "2"] = pre ++ i :: post /\
    map strconv.Atoi pre = map Some ns /\
    ((strconv.Atoi i = None /\
      memory.not_found = fmt_Errorf "invalid record id %q" i /\
      new_calls w (snd (RunRecordDelete c w)) = deleted "example.com" ns /\
      remote (snd (RunRecordDelete c w))
      = after_deletes (Domains c) "example.com" ns (remote w))
     \/
     (exists n,
         strconv.Atoi i = Some n /\
         new_calls w (snd (RunRecordDelete c w))
         = deleted "example.com" ns
           ++ [{| ev_call := CallDeleteRecord "example.com" n;
                  ev_err := Some memory.not_found |}] /\
         remote (snd (RunRecordDelete c w))
         = snd (DeleteRecord (Domains c) "example.com" n
                  (after_deletes (Domains c) "example.com" ns (remote w))))).
Proof.
  intros r1 r2 w c. split; [reflexivity |]. split; [reflexivity |].
  split; [reflexivity |]. split; [discriminate |].
  apply (record_delete_partial_effect c w "example.com" ["1"; "5"; "2"]
           memory.not_found); [reflexivity | discriminate | reflexivity].
Defined.

(** ** Errors of the remote service *)

(** C7.  In a run of any handler, a remote call that answers an error is
    the last remote call of the run, so it is not tried again, and the
    handler returns that very error.  The statement covers every operation
    the handlers invoke: [Create], [List], [Get], [Delete], [Records],
    [CreateRecord], [EditRecord] and [DeleteRecord]. *)
Theorem remote_error_returned_unchanged {S} (h : Handler) (c : CmdConfig S)
        (w : World S) (pre post : list Event) (ev : Event) (e : error) :
  new_calls w (snd (run h c w)) = pre ++ ev :: post ->
  ev_err ev = Some e ->
  fst (run h c w) = inr (Err e) /\ post = [].
Proof.
  intros Hlog Herr.
  destruct (run_log h c w) as [evs [Hc Hstop]].
  rewrite (new_calls_app _ _ _ Hc) in Hlog.
  destruct (Hstop pre ev post e Hlog Herr). auto.
Qed.

Lemma remote_error_returned_unchanged_witness :
  let a := {| mocks.on_List := (mock.Nil, mock.Nil);
              mocks.on_Get := (None, Some (RemoteErr "503"));
              mocks.on_Create := (None, None);
              mocks.on_Delete := None;
              mocks.on_Records := ([], None);
              mocks.on_CreateRecord := (None, None);
              mocks.on_DeleteRecord := fun _ => None;
              mocks.on_EditRecord := (None, None) |} in
  let c := mocks.config a ["example.com"] [] [] in
  let ev := {| ev_call := CallGet "example.com";
               ev_err := Some (RemoteErr "503") |} in
  new_calls mocks.start (snd (run HDomainGet c mocks.start)) = [] ++ ev :: [] /\
  ev_err ev = Some (RemoteErr "503") /\
  fst (run HDomainGet c mocks.start) = inr (Err (RemoteErr "503")).
Proof.
  intros a c ev. split; [reflexivity |]. split; [reflexivity |].
  apply (remote_error_returned_unchanged HDomainGet c mocks.start [] [] ev
           (RemoteErr "503")); reflexivity.
Defined.

(** ** Creating a record *)

(** C3, as the code has it.  Let the record-type flag read as the empty
    string.  Then [RunRecordCreate] makes no remote call, whatever its
    arguments and its other flags.  When, moreover, it has its one
    positional argument and the five other flags are read without error,
    it returns the invalid-input error "record request is missing type",
    whatever the values of those five flags. *)
Theorem record_create_empty_type {S} (c : CmdConfig S) (w : World S) :
  GetString (Doit c) (NS c) doctl.ArgRecordType = ("", None) ->
  new_calls w (snd (RunRecordCreate c w)) = [] /\
  (List.length (Args c) = 1 ->
   snd (GetString (Doit c) (NS c) doctl.ArgRecordName) = None ->
   snd (GetString (Doit c) (NS c) doctl.ArgRecordData) = None ->
   snd (GetInt (Doit c) (NS c) doctl.ArgRecordPriority) = None ->
   snd (GetInt (Doit c) (NS c) doctl.ArgRecordPort) = None ->
   snd (GetInt (Doit c) (NS c) doctl.ArgRecordWeight) = None ->
   RunRecordCreate c w
   = (inr (Err (errors_New "record request is missing type")), w) /\
   kind_of (errors_New "record request is missing type") = InvalidInput).
Proof.
  intros Htype. split.
  - unfold_body. rewrite Htype. cbn [fst snd String.length Nat.eqb godo.Type_].
    case_split; apply new_calls_same.
  - intros Hlen Hname Hdata Hprio Hport Hweight.
    destruct (Args c) as [|name [|b l]] eqn:HA; try discriminate.
    split; [| reflexivity].
    unfold_body.
    rewrite HA, Htype, Hname, Hdata, Hprio, Hport, Hweight. reflexivity.
Qed.

Lemma record_create_empty_type_witness :
  let c := mocks.config mocks.quiet ["example.com"]
             [("record-name", "www"); ("record-data", "10.0.0.1")]
             [("record-priority", 10%Z)] in
  GetString (Doit c) (NS c) doctl.ArgRecordType = ("", None) /\
  RunRecordCreate c mocks.start
  = (inr (Err (errors_New "record request is missing type")), mocks.start).
Proof.
  intros c. split; [reflexivity |].
  apply (record_create_empty_type c mocks.start); reflexivity.
Defined.

(** C3 as it is worded fails on an invocation without the domain argument:
    the record type is empty and the error is the missing-arguments one. *)
Lemma record_create_empty_type_no_argument :
  let c := mocks.config mocks.quiet [] [] [] in
  GetString (Doit c) (NS c) doctl.ArgRecordType = ("", None) /\
  fst (RunRecordCreate c mocks.start) = inr (Err (MissingArgsErr "domain")) /\
  kind_of (MissingArgsErr "domain") <> InvalidInput.
Proof.
  intros c. split; [reflexivity |]. split; [reflexivity | discriminate].
Qed.

(** ** Listing domains *)

(** A mocked [List] that was told to return a list, as a value or through
    a function, and no error, answers that list and no error. *)
Lemma mocked_List_answers {A} (l : list A) (rf : unit -> list A) :
  mocks.List (mock.Value l) mock.Nil = (l, None) /\
  mocks.List (mock.Func rf) mock.Nil = (rf tt, None).
Proof. split; reflexivity. Qed.

(** C4, as the code has it.  When [List] answers a list of domains and no
    error, [RunDomainList] hands exactly that list to the displayer, once,
    and returns what the displayer returns: no error when the displayer
    reports none. *)
Theorem domain_list_displays {S} (c : CmdConfig S) (w : World S)
        (domains : list godo.Domain) (s' : S) :
  List_ (Domains c) (remote w) = ((domains, None), s') ->
  displayed (snd (RunDomainList c w)) = displayed w ++ [domain domains] /\
  fst (RunDomainList c w)
  = match Display c (domain domains) with
    | Some e => inr (Err e)
    | None => inl tt
    end.
Proof.
  intros HL. unfold_body. rewrite HL. cbn [fst snd].
  destruct (Display c (domain domains)); split; reflexivity.
Qed.

Lemma domain_list_displays_witness :
  let d1 := {| godo.dom_Name := "example.com"; godo.dom_IP := "10.0.0.1" |} in
  let d2 := {| godo.dom_Name := "example.org"; godo.dom_IP := "10.0.0.2" |} in
  let a := {| mocks.on_List := (mock.Value [d1; d2; d1], mock.Nil);
              mocks.on_Get := (None, None);
              mocks.on_Create := (None, None);
              mocks.on_Delete := None;
              mocks.on_Records := ([], None);
              mocks.on_CreateRecord := (None, None);
              mocks.on_DeleteRecord := fun _ => None;
              mocks.on_EditRecord := (None, None) |} in
  let c := mocks.config a [] [] [] in
  List_ (Domains c) (remote mocks.start) = (([d1; d2; d1], None), tt) /\
  displayed (snd (RunDomainList c mocks.start)) = [domain [d1; d2; d1]] /\
  fst (RunDomainList c mocks.start) = inl tt.
Proof.
  intros d1 d2 a c. split; [reflexivity |].
  apply (domain_list_displays c mocks.start [d1; d2; d1] tt). reflexivity.
Defined.

(** C4 as it is worded fails when the displayer itself fails: the list is
    handed over, and the displayer's error is returned. *)
Lemma domain_list_display_error :
  let d1 := {| godo.dom_Name := "example.com"; godo.dom_IP := "10.0.0.1" |} in
  let a := {| mocks.on_List := (mock.Value [d1], mock.Nil);
              mocks.on_Get := (None, None);
              mocks.on_Create := (None, None);
              mocks.on_Delete := None;
              mocks.on_Records := ([], None);
              mocks.on_CreateRecord := (None, None);
              mocks.on_DeleteRecord := fun _ => None;
              mocks.on_EditRecord := (None, None) |} in
  let c := {| NS := "domain";
              Doit := flags [] [];
              Args := [];
              Domains := mocks.DomainsService a;
              Display := fun _ => Some (errors_New "unknown output type") |} in
  List_ (Domains c) (remote mocks.start) = (([d1], None), tt) /\
  displayed (snd (RunDomainList c mocks.start)) = [domain [d1]] /\
  fst (RunDomainList c mocks.start)
  = inr (Err (errors_New "unknown output type")) /\
  fst (RunDomainList c mocks.start) <> inl tt.
Proof.
  intros d1 a c. split; [reflexivity |]. split; [reflexivity |].
  split; [reflexivity | discriminate].
Qed.

(** ** The empty domain name *)

(** [RunDomainGet], [RunDomainDelete] and [RunRecordList] refuse an empty
    domain name before any remote call. *)
Lemma empty_domain_name_refused {S} (h : Handler) (c : CmdConfig S) (w : World S) :
  Args c = [""] ->
  h = HDomainGet \/ h = HDomainDelete \/ h = HRecordList ->
  exists text,
    run h c w = (inr (Err (errors_New text)), w) /\
    kind_of (errors_New text) = InvalidInput.
Proof.
  intros HA [-> | [-> | ->]]; simpl; unfold_body; rewrite HA;
    eexists; split; reflexivity.
Qed.

(** [RunDomainCreate] has no such test: with an empty domain name and a
    readable address flag it calls [Create] with the empty name. *)
Lemma domain_create_empty_name_calls_Create {S} (c : CmdConfig S) (w : World S) :
  Args c = [""] ->
  snd (GetString (Doit c) (NS c) "ip-address") = None ->
  map ev_call (new_calls w (snd (RunDomainCreate c w)))
  = [CallCreate {| godo.dcr_Name := "";
                   godo.dcr_IPAddress :=
                     fst (GetString (Doit c) (NS c) "ip-address") |}].
Proof.
  intros HA Hip.
  assert (E : exists evs,
             calls (snd (RunDomainCreate c w)) = calls w ++ evs /\
             map ev_call evs
             = [CallCreate {| godo.dcr_Name := "";
                              godo.dcr_IPAddress :=
                                fst (GetString (Doit c) (NS c) "ip-address") |}]).
  { unfold_body. rewrite HA, Hip. cbn [List.length Nat.eqb negb nth_error].
    case_split; eexists; split; reflexivity. }
  destruct E as [evs [Hc Hm]]. now rewrite (new_calls_app _ _ _ Hc).
Qed.

(** C5 fails on [RunDomainCreate].  On the mocked service, [domain create]
    with an empty name and an address succeeds, and the one remote call it
    makes is [Create] with the empty name; the same empty name is refused by
    [RunDomainGet] without a call. *)
Theorem domain_create_empty_name :
  let c := mocks.config mocks.quiet [""] [("ip-address", "10.0.0.1")] [] in
  fst (RunDomainCreate c mocks.start) = inl tt /\
  map ev_call (calls (snd (RunDomainCreate c mocks.start)))
  = [CallCreate {| godo.dcr_Name := ""; godo.dcr_IPAddress := "10.0.0.1" |}] /\
  RunDomainGet c mocks.start
  = (inr (Err (errors_New "invalid domain name")), mocks.start).
Proof.
  intros c. split; [reflexivity |]. split; reflexivity.
Qed.

(** ** Creating a record, then reading the records back *)

Lemma memory_keeps_created_records :
  keeps_created_records memory.DomainsService.
Proof.
  intros name req s r s1 H. simpl in H. inversion H; subst. split.
  - unfold carries. simpl. repeat split; reflexivity.
  - eexists. eexists. split; [reflexivity |].
    unfold memory.records_of. apply in_map_iff.
    exists (name, memory.of_request (memory.next_id s) req).
    split; [reflexivity |]. apply filter_In. split.
    + apply in_app_iff. right. now left.
    + apply String.eqb_refl.
Qed.

(** A successful [RunRecordCreate] had one argument, read its six flags
    without error and got a record from one [CreateRecord] call on the
    request made of the six values. *)
Lemma RunRecordCreate_success {S} (c : CmdConfig S) (w : World S) :
  fst (RunRecordCreate c w) = inl tt ->
  exists name r s1,
    Args c = [name] /\
    CreateRecord (Domains c) name
      {| godo.Type_ := fst (GetString (Doit c) (NS c) doctl.ArgRecordType);
         godo.Name := fst (GetString (Doit c) (NS c) doctl.ArgRecordName);
         godo.Data := fst (GetString (Doit c) (NS c) doctl.ArgRecordData);
         godo.Priority := fst (GetInt (Doit c) (NS c) doctl.ArgRecordPriority);
         godo.Port := fst (GetInt (Doit c) (NS c) doctl.ArgRecordPort);
         godo.Weight := fst (GetInt (Doit c) (NS c) doctl.ArgRecordWeight) |}
      (remote w)
    = ((Some r, None), s1) /\
    remote (snd (RunRecordCreate c w)) = s1 /\
    displayed (snd (RunRecordCreate c w)) = displayed w ++ [domainRecord [r]].
Proof.
  destruct (Args c) as [|name [|b l]] eqn:HA;
    unfold_body; rewrite HA; cbn [List.length Nat.eqb negb nth_error];
    try discriminate.
  case_split; cbn [fst snd]; try discriminate.
  intros _. exists name.
  match goal with
  | H : CreateRecord _ _ _ _ = (?p, ?s), Hd : fst ?p = Some ?d |- _ =>
      exists d, s; rewrite H; destruct p as [d' e']; simpl in *; subst;
      repeat split; reflexivity
  end.
Qed.

(** C8, as the code has it.  Let the service keep what it creates.  After a
    successful [RunRecordCreate] on a domain, [Records] of that domain
    answers a list with a record whose type, name, data, priority, port and
    weight are the values of the six flags of the creation. *)
Theorem record_create_then_records {S} (c : CmdConfig S) (w : World S)
        (name : string) :
  Args c = [name] ->
  keeps_created_records (Domains c) ->
  fst (RunRecordCreate c w) = inl tt ->
  exists r,
    In r (fst (fst (Records (Domains c) name
                            (remote (snd (RunRecordCreate c w)))))) /\
    godo.rec_Type r = fst (GetString (Doit c) (NS c) doctl.ArgRecordType) /\
    godo.rec_Name r = fst (GetString (Doit c) (NS c) doctl.ArgRecordName) /\
    godo.rec_Data r = fst (GetString (Doit c) (NS c) doctl.ArgRecordData) /\
    godo.rec_Priority r = fst (GetInt (Doit c) (NS c) doctl.ArgRecordPriority) /\
    godo.rec_Port r = fst (GetInt (Doit c) (NS c) doctl.ArgRecordPort) /\
    godo.rec_Weight r = fst (GetInt (Doit c) (NS c) doctl.ArgRecordWeight).
Proof.
  intros HA Hkeeps Hok.
  destruct (RunRecordCreate_success c w Hok)
    as [name' [r [s1 [HA' [Hcreate [Hremote _]]]]]].
  rewrite HA in HA'. inversion HA'; subst name'.
  destruct (Hkeeps _ _ _ _ _ Hcreate) as [Hcarries [l [s2 [Hrecords Hin]]]].
  exists r. rewrite Hremote, Hrecords. split; [exact Hin |].
  exact Hcarries.
Qed.

Lemma record_create_then_records_witness :
  let c := memory.config ["example.com"]
             [("record-type", "MX"); ("record-name", "mail");
              ("record-data", "mx.example.com")]
             [("record-priority", 10%Z); ("record-port", 25%Z);
              ("record-weight", 5%Z)] in
  let w := memory.start [] in
  Args c = ["example.com"] /\
  keeps_created_records (Domains c) /\
  fst (RunRecordCreate c w) = inl tt /\
  exists r,
    In r (fst (fst (Records (Domains c) "example.com"
                            (remote (snd (RunRecordCreate c w)))))) /\
    godo.rec_Type r = "MX" /\
    godo.rec_Name r = "mail" /\
    godo.rec_Data r = "mx.example.com" /\
    godo.rec_Priority r = 10%Z /\
    godo.rec_Port r = 25%Z /\
    godo.rec_Weight r = 5%Z.
Proof.
  intros c w. split; [reflexivity |].
  split; [exact memory_keeps_created_records |].
  split; [reflexivity |].
  apply (record_create_then_records c w "example.com");
    [reflexivity | exact memory_keeps_created_records | reflexivity].
Defined.

(** C8 as it is worded fails on a mock with canned answers: the creation of
    a TXT record succeeds, and the records the mock lists afterwards are the
    ones it was told to list, none of them of type TXT. *)
Lemma record_create_canned_answers :
  let r0 := {| godo.rec_ID := 1; godo.rec_Type := "A"; godo.rec_Name := "www";
               godo.rec_Data := "10.0.0.1"; godo.rec_Priority := 0;
               godo.rec_Port := 0; godo.rec_Weight := 0 |} in
  let a := {| mocks.on_List := (mock.Nil, mock.Nil);
              mocks.on_Get := (None, None);
              mocks.on_Create := (None, None);
              mocks.on_Delete := None;
              mocks.on_Records := ([r0], None);
              mocks.on_CreateRecord := (Some r0, None);
              mocks.on_DeleteRecord := fun _ => None;
              mocks.on_EditRecord := (None, None) |} in
  let c := mocks.config a ["example.com"]
             [("record-type", "TXT"); ("record-name", "note");
              ("record-data", "hello")] [] in
  fst (RunRecordCreate c mocks.start) = inl tt /\
  map ev_call (calls (snd (RunRecordCreate c mocks.start)))
  = [CallCreateRecord "example.com"
       {| godo.Type_ := "TXT"; godo.Name := "note"; godo.Data := "hello";
          godo.Priority := 0; godo.Port := 0; godo.Weight := 0 |}] /\
  forall r,
    In r (fst (fst (Records (Domains c) "example.com"
                            (remote (snd (RunRecordCreate c mocks.start)))))) ->
    godo.rec_Type r <> "TXT".
Proof.
  intros r0 a c. split; [reflexivity |]. split; [reflexivity |].
  intros r [<- | []]. discriminate.
Qed.

(** ** One call, one display *)

Lemma shown_error {S} (h : Handler) (c : CmdConfig S) (w : World S)
      (ev : Event) (s' : S) (item : Displayable) (e : error) :
  ev_err ev = None -> displays h item = true -> Display c item = Some e ->
  single_run h c w (inr (Err e))
    {| remote := s'; calls := calls w ++ [ev];
       displayed := displayed w ++ [item] |}.
Proof.
  intros Hev Hk Hd. pose proof (shown h c w ev s' item Hev Hk) as H.
  now rewrite Hd in H.
Qed.

Lemma shown_ok {S} (h : Handler) (c : CmdConfig S) (w : World S)
      (ev : Event) (s' : S) (item : Displayable) :
  ev_err ev = None -> displays h item = true -> Display c item = None ->
  single_run h c w (inl tt)
    {| remote := s'; calls := calls w ++ [ev];
       displayed := displayed w ++ [item] |}.
Proof.
  intros Hev Hk Hd. pose proof (shown h c w ev s' item Hev Hk) as H.
  now rewrite Hd in H.
Qed.

(** Every handler but [RunRecordDelete] runs in one of the three shapes. *)
Lemma single_call_run {S} (h : Handler) (c : CmdConfig S) (w : World S) :
  h <> HRecordDelete ->
  single_run h c w (fst (run h c w)) (snd (run h c w)).
Proof.
  intros Hh. destruct h; try congruence; clear Hh; simpl.
  all: by_arguments c; cbn [fst snd remote calls displayed].
  all: try solve [apply stopped; unfold early; eauto 6].
  all: try solve [eapply shown_error; [reflexivity | reflexivity | eassumption]].
  all: try solve [eapply shown_ok; [reflexivity | reflexivity | eassumption]].
  all: eapply called; unfold call_result; cbn [ev_err ev_call nil_answer].
  all: try solve [left; eexists; split; reflexivity].
  all: try solve [right; right; repeat split; reflexivity].
  all: right; left; split; [reflexivity | split; [| reflexivity]].
  all: match goal with
       | H : _ = (?p, _) |- _ => rewrite H; destruct p; simpl in *; congruence
       end.
Qed.

Lemma single_run_calls {S} (h : Handler) (c : CmdConfig S) (w w' : World S)
      (r : unit + exit) :
  single_run h c w r w' ->
  (w' = w /\ new_calls w w' = []) \/ exists ev, new_calls w w' = [ev].
Proof.
  intros H. destruct H.
  - left. split; [reflexivity | apply new_calls_same].
  - right. exists ev. now apply new_calls_app.
  - right. exists ev. now apply new_calls_app.
Qed.

Lemma deleted_length (domainName : string) (ns : list Z) :
  List.length (deleted domainName ns) = List.length ns.
Proof. unfold deleted. apply length_map. Qed.

Lemma map_Some_length {A B} (f : A -> option B) (l : list A) (ns : list B) :
  map f l = map Some ns -> List.length l = List.length ns.
Proof.
  intros H. apply (f_equal (@List.length _)) in H.
  now rewrite !length_map in H.
Qed.

Lemma record_delete_or_not (h : Handler) :
  h = HRecordDelete \/ h <> HRecordDelete.
Proof. destruct h; (left; reflexivity) || (right; discriminate). Qed.

(** A run of [RunRecordDelete] that has ids to work on. *)
Lemma record_delete_short {S} (c : CmdConfig S) (w : World S) :
  List.length (Args c) < 2 ->
  RunRecordDelete c w = (inr (Err (MissingArgsErr (NS c))), w).
Proof.
  intros Hlen. destruct (Args c) as [|a [|b l]] eqn:HA; simpl in Hlen; try lia.
  - apply (no_argument HRecordDelete c w HA). discriminate.
  - apply (record_delete_one_argument c w a HA).
Qed.

(** ** What a run does and never does *)

(** X1.  A handler panics only on a nil pointer: if a run ends in a panic,
    it made exactly one remote call, the service answered that call with a
    nil pointer and a nil error, and nothing was displayed.  In particular
    no handler ever indexes its arguments out of range. *)
Theorem panic_only_on_nil_pointer {S} (h : Handler) (c : CmdConfig S)
        (w : World S) :
  fst (run h c w) = inr Panic ->
  exists ev,
    new_calls w (snd (run h c w)) = [ev] /\
    ev_err ev = None /\
    nil_answer (Domains c) (remote w) (ev_call ev) /\
    displayed (snd (run h c w)) = displayed w.
Proof.
  intros Hp. destruct (record_delete_or_not h) as [-> | Hh].
  - exfalso. simpl in Hp.
    destruct (Args c) as [|domainName [|i rest]] eqn:HA.
    + rewrite record_delete_short in Hp by (rewrite HA; simpl; lia).
      discriminate.
    + rewrite record_delete_short in Hp by (rewrite HA; simpl; lia).
      discriminate.
    + destruct (RunRecordDelete_outcome c w domainName (i :: rest) HA)
        as [ns [evs [Ho _]]]; [discriminate |].
      rewrite Hp in Ho. inversion Ho.
  - pose proof (single_call_run h c w Hh) as H. rewrite Hp in H.
    inversion H as [e He | ev s' r Hr | ev s' item Hev Hk Hd]; subst.
    + destruct Hr as [[e [_ He]] | [[Hev [Hnil _]] | [_ [_ He]]]];
        try discriminate.
      exists ev. split; [now apply new_calls_app | auto].
    + destruct (Display c item); discriminate.
Qed.

Lemma panic_only_on_nil_pointer_witness :
  let a := {| mocks.on_List := (mock.Nil, mock.Nil);
              mocks.on_Get := (None, None);
              mocks.on_Create := (None, None);
              mocks.on_Delete := None;
              mocks.on_Records := ([], None);
              mocks.on_CreateRecord := (None, None);
              mocks.on_DeleteRecord := fun _ => None;
              mocks.on_EditRecord := (None, None) |} in
  let c := mocks.config a ["example.com"] [] [] in
  fst (run HDomainGet c mocks.start) = inr Panic /\
  exists ev,
    new_calls mocks.start (snd (run HDomainGet c mocks.start)) = [ev] /\
    ev_err ev = None /\
    nil_answer (Domains c) (remote mocks.start) (ev_call ev) /\
    displayed (snd (run HDomainGet c mocks.start)) = displayed mocks.start.
Proof.
  intros a c. split; [reflexivity |].
  apply (panic_only_on_nil_pointer HDomainGet c mocks.start). reflexivity.
Defined.

(** X2.  On a service that never answers a nil pointer together with a nil
    error, no handler panics, whatever its arguments and flags. *)
Theorem handlers_never_panic {S} (h : Handler) (c : CmdConfig S) (w : World S) :
  answers_pointers (Domains c) ->
  fst (run h c w) <> inr Panic.
Proof.
  intros [HG [HC [HCR HER]]] Hp.
  destruct (record_delete_or_not h) as [-> | Hh].
  - simpl in Hp.
    destruct (Args c) as [|domainName [|i rest]] eqn:HA.
    + rewrite record_delete_short in Hp by (rewrite HA; simpl; lia).
      discriminate.
    + rewrite record_delete_short in Hp by (rewrite HA; simpl; lia).
      discriminate.
    + destruct (RunRecordDelete_outcome c w domainName (i :: rest) HA)
        as [ns [evs [Ho _]]]; [discriminate |].
      rewrite Hp in Ho. inversion Ho.
  - pose proof (single_call_run h c w Hh) as H. rewrite Hp in H.
    inversion H as [e He | ev s' r Hr | ev s' item Hev Hk Hd]; subst.
    + destruct Hr as [[e [_ He]] | [[Hev [Hnil _]] | [_ [_ He]]]];
        try discriminate.
      destruct (ev_call ev); simpl in Hnil; try contradiction.
      * exact (HC _ _ Hnil).
      * exact (HG _ _ Hnil).
      * exact (HCR _ _ _ Hnil).
      * exact (HER _ _ _ _ Hnil).
    + destruct (Display c item); discriminate.
Qed.

Lemma memory_answers_pointers : answers_pointers memory.DomainsService.
Proof.
  repeat split; intros; simpl; try discriminate.
  destruct (existsb _ _); simpl; discriminate.
Qed.

Lemma handlers_never_panic_witness :
  let c := memory.config ["example.com"]
             [("record-type", "A"); ("record-name", "www");
              ("record-data", "10.0.0.1")] [("record-id", 4%Z)] in
  answers_pointers (Domains c) /\
  fst (run HRecordUpdate c (memory.start [])) <> inr Panic.
Proof.
  intros c. split; [exact memory_answers_pointers |].
  apply (handlers_never_panic HRecordUpdate c (memory.start [])).
  exact memory_answers_pointers.
Defined.

(** X3.  Every handler makes at most one remote call in a run, except
    [RunRecordDelete], which makes at most one call per id: no more calls
    than it has arguments after the domain. *)
Theorem at_most_one_call {S} (h : Handler) (c : CmdConfig S) (w : World S) :
  List.length (new_calls w (snd (run h c w)))
  <= match h with
     | HRecordDelete => List.length (Args c) - 1
     | _ => 1
     end.
Proof.
  destruct (record_delete_or_not h) as [-> | Hh].
  - simpl.
    destruct (Args c) as [|domainName [|i rest]] eqn:HA.
    + rewrite record_delete_short by (rewrite HA; simpl; lia).
      simpl. rewrite new_calls_same. simpl. lia.
    + rewrite record_delete_short by (rewrite HA; simpl; lia).
      simpl. rewrite new_calls_same. simpl. lia.
    + destruct (RunRecordDelete_outcome c w domainName (i :: rest) HA)
        as [ns [evs [Ho [Hc _]]]]; [discriminate |].
      rewrite Hc.
      destruct (delete_outcome_prefix _ _ _ _ _ Ho) as [k [Hk [Hp [Hm _]]]].
      apply (f_equal (@List.length _)) in Hm. rewrite !length_map in Hm.
      apply map_Some_length in Hp. rewrite length_firstn in Hp.
      simpl in *. lia.
  - destruct (single_run_calls _ _ _ _ _ (single_call_run h c w Hh))
      as [[_ ->] | [ev ->]]; destruct h; simpl; try lia; congruence.
Qed.

(** X4.  [RunDomainDelete] and [RunRecordDelete] never display anything.
    Every other handler displays at most one item, and only after its one
    remote call answered no error. *)
Theorem display_after_successful_call {S} (h : Handler) (c : CmdConfig S)
        (w : World S) :
  match h with
  | HDomainDelete | HRecordDelete =>
      displayed (snd (run h c w)) = displayed w
  | _ =>
      displayed (snd (run h c w)) = displayed w \/
      exists item ev,
        displayed (snd (run h c w)) = displayed w ++ [item] /\
        new_calls w (snd (run h c w)) = [ev] /\
        ev_err ev = None
  end.
Proof.
  assert (Hdel : displayed (snd (RunRecordDelete c w)) = displayed w).
  { destruct (Args c) as [|domainName [|i rest]] eqn:HA.
    - now rewrite record_delete_short by (rewrite HA; simpl; lia).
    - now rewrite record_delete_short by (rewrite HA; simpl; lia).
    - destruct (RunRecordDelete_outcome c w domainName (i :: rest) HA)
        as [ns [evs [_ [_ [_ Hd]]]]]; [discriminate | exact Hd]. }
  assert (Hone : h <> HRecordDelete ->
                 displayed (snd (run h c w)) = displayed w \/
                 exists item ev,
                   displays h item = true /\
                   displayed (snd (run h c w)) = displayed w ++ [item] /\
                   new_calls w (snd (run h c w)) = [ev] /\
                   ev_err ev = None).
  { intros Hh. pose proof (single_call_run h c w Hh) as H.
    destruct (run h c w) as [r w']. simpl in *. destruct H.
    - left. reflexivity.
    - left. reflexivity.
    - right. exists item, ev. repeat split; auto.
      apply new_calls_app. reflexivity. }
  destruct h; try exact Hdel.
  all: destruct Hone as [H | [item [ev [Hk H]]]]; try discriminate.
  all: try (left; exact H); try (right; exists item, ev; exact H);
    try exact H.
Qed.

(** X5.  A handler touches the remote state through the service only: a
    run that logged no remote call leaves the remote state as it found it,
    and displays nothing. *)
Theorem no_call_no_effect {S} (h : Handler) (c : CmdConfig S) (w : World S) :
  new_calls w (snd (run h c w)) = [] ->
  remote (snd (run h c w)) = remote w /\
  displayed (snd (run h c w)) = displayed w.
Proof.
  intros Hn. destruct (record_delete_or_not h) as [-> | Hh].
  - simpl in *.
    destruct (Args c) as [|domainName [|i rest]] eqn:HA.
    + now rewrite record_delete_short by (rewrite HA; simpl; lia).
    + now rewrite record_delete_short by (rewrite HA; simpl; lia).
    + destruct (RunRecordDelete_outcome c w domainName (i :: rest) HA)
        as [ns [evs [Ho [Hc [Hr Hd]]]]]; [discriminate |].
      split; [| exact Hd]. rewrite Hr. rewrite Hn in Hc. subst evs.
      assert (ns = []) as ->; [| reflexivity].
      inversion Ho as [ns' Hp He | pre i' post ns' Hi Hp Hb He
                      | pre i' post ns' n e Hi Hp Hb He]; subst.
      * destruct ns; [reflexivity | discriminate].
      * destruct ns; [reflexivity | discriminate].
      * exfalso.
        match goal with
        | H : _ ++ [_] = [] |- _ =>
            symmetry in H; now apply app_cons_not_nil in H
        | H : [] = _ ++ [_] |- _ => now apply app_cons_not_nil in H
        end.
  - destruct (single_run_calls _ _ _ _ _ (single_call_run h c w Hh))
      as [[-> _] | [ev Hev]]; [auto | congruence].
Qed.

Lemma no_call_no_effect_witness :
  let c := memory.config [""] [] [] in
  let w := memory.start [("example.com", memory.of_request 1 (record_request c))] in
  new_calls w (snd (run HRecordList c w)) = [] /\
  remote (snd (run HRecordList c w)) = remote w /\
  displayed (snd (run HRecordList c w)) = displayed w.
Proof.
  intros c w. split; [reflexivity |].
  apply (no_call_no_effect HRecordList c w). reflexivity.
Defined.

(** X6.  Every error a handler returns has one of seven origins: the
    argument count, a validation of the domain name or of the record type,
    a malformed record id, the read of a string flag, the read of an
    integer flag, the last remote call, or the displayer.  In the first,
    second, fourth and fifth case the world is untouched. *)
Theorem returned_error_origin {S} (h : Handler) (c : CmdConfig S)
        (w : World S) (e : error) :
  fst (run h c w) = inr (Err e) ->
  origin c w (snd (run h c w)) e.
Proof.
  intros He. destruct (record_delete_or_not h) as [-> | Hh].
  - simpl in *.
    destruct (Args c) as [|domainName [|i rest]] eqn:HA.
    + rewrite record_delete_short in * by (rewrite HA; simpl; lia).
      simpl in *. apply from_argument_count; congruence.
    + rewrite record_delete_short in * by (rewrite HA; simpl; lia).
      simpl in *. apply from_argument_count; congruence.
    + destruct (RunRecordDelete_outcome c w domainName (i :: rest) HA)
        as [ns [evs [Ho [Hc _]]]]; [discriminate |].
      rewrite He in Ho.
      inversion Ho as [| pre i' post ns' Hi Hp Hb Hr
                       | pre i' post ns' n e' Hi Hp Hb Hr]; subst.
      * apply from_record_id with (i := i'); auto.
        rewrite HA. cbn [skipn]. rewrite Hi. apply in_app_iff. right. now left.
      * eapply from_service; [symmetry; eassumption | reflexivity].
  - pose proof (single_call_run h c w Hh) as H.
    destruct (run h c w) as [r w']. simpl in *. subst r.
    inversion H as [e' Hearly | ev s' r Hr | ev s' item Hev Hk Hd]; subst.
    + destruct Hearly as [-> | [[text ->] | [[key Hk] | [key Hk]]]].
      * now apply from_argument_count.
      * now apply from_validation with (text := text).
      * now apply from_string_flag with (key := key).
      * now apply from_int_flag with (key := key).
    + destruct Hr as [[e' [Hev Hr]] | [[_ [_ Hr]] | [_ [_ Hr]]]];
        try discriminate.
      inversion Hr; subst e'.
      apply from_service with (pre := []) (ev := ev); [| assumption].
      now apply new_calls_app.
    + destruct (Display c item) as [e'|] eqn:Hdisp; [| discriminate].
      inversion Hd; subst e'.
      now apply from_displayer with (item := item).
Qed.

Lemma returned_error_origin_witness :
  let c := {| NS := "domain";
              Doit := flags [] [];
              Args := [];
              Domains := mocks.DomainsService mocks.quiet;
              Display := fun _ => Some (errors_New "unknown output type") |} in
  fst (run HDomainList c mocks.start)
  = inr (Err (errors_New "unknown output type")) /\
  origin c mocks.start (snd (run HDomainList c mocks.start))
         (errors_New "unknown output type").
Proof.
  intros c. split; [reflexivity |].
  apply (returned_error_origin HDomainList c mocks.start). reflexivity.
Defined.

(** ** Flags *)

(** X7.  A handler that has its one positional argument reads its flags in
    the order of the source, and the first read that fails ends the run:
    the handler returns the error of that read and leaves the world
    untouched.  For [RunRecordCreate] this comes before the test of the
    record type. *)
Theorem flag_error_returned_first {S} (h : Handler) (c : CmdConfig S)
        (w : World S) (e : error) :
  List.length (Args c) = 1 ->
  first_error (reads h c) = Some e ->
  run h c w = (inr (Err e), w).
Proof.
  intros Hlen Hfirst.
  destruct (Args c) as [|name [|b l]] eqn:HA; try discriminate.
  destruct h; simpl in Hfirst; try discriminate; simpl; revert Hfirst;
    unfold_body; rewrite HA;
    cbn [List.length Nat.eqb negb nth_error];
    case_split; intros Hfirst; congruence.
Qed.

Lemma flag_error_returned_first_witness :
  let d := {| GetString := fun _ key => ("", None);
              GetInt := fun _ key =>
                if String.eqb key "record-port"
                then (0%Z, Some (RemoteErr "not a number"))
                else (0%Z, None) |} in
  let c := {| NS := "domain";
              Doit := d;
              Args := ["example.com"];
              Domains := mocks.DomainsService mocks.quiet;
              Display := fun _ => None |} in
  List.length (Args c) = 1 /\
  first_error (reads HRecordCreate c) = Some (RemoteErr "not a number") /\
  run HRecordCreate c mocks.start
  = (inr (Err (RemoteErr "not a number")), mocks.start).
Proof.
  intros d c. split; [reflexivity |]. split; [reflexivity |].
  apply (flag_error_returned_first HRecordCreate c mocks.start); reflexivity.
Defined.

(** ** What each handler asks of the service *)

Lemma calls_of_run {S} (w w' : World S) (evs : list Event) (cls : list Call) :
  calls w' = calls w ++ evs -> map ev_call evs = cls ->
  map ev_call (new_calls w w') = cls.
Proof. intros Hc Hm. now rewrite (new_calls_app _ _ _ Hc). Qed.

(** X8.  [RunRecordUpdate] with its one argument and readable flags always
    calls [EditRecord], once, with the domain, the record id and the six
    record flags unchanged: unlike [RunRecordCreate] it does not test the
    record type, and an empty type goes to the service. *)
Theorem record_update_calls_EditRecord {S} (c : CmdConfig S) (w : World S)
        (domainName : string) :
  Args c = [domainName] ->
  first_error (reads HRecordUpdate c) = None ->
  map ev_call (new_calls w (snd (RunRecordUpdate c w)))
  = [CallEditRecord domainName
       (fst (GetInt (Doit c) (NS c) doctl.ArgRecordID))
       (record_request c)].
Proof.
  intros HA Hfirst. simpl in Hfirst. revert Hfirst.
  unfold record_request. unfold_body. rewrite HA.
  cbn [List.length Nat.eqb negb nth_error].
  case_split; intros Hfirst; try discriminate;
    (eapply calls_of_run; [reflexivity | reflexivity]).
Qed.

Lemma record_update_calls_EditRecord_witness :
  let c := mocks.config mocks.quiet ["example.com"]
             [("record-name", "www")] [("record-id", 12%Z)] in
  Args c = ["example.com"] /\
  first_error (reads HRecordUpdate c) = None /\
  map ev_call (new_calls mocks.start (snd (RunRecordUpdate c mocks.start)))
  = [CallEditRecord "example.com" 12
       {| godo.Type_ := ""; godo.Name := "www"; godo.Data := "";
          godo.Priority := 0; godo.Port := 0; godo.Weight := 0 |}].
Proof.
  intros c. split; [reflexivity |]. split; [reflexivity |].
  apply (record_update_calls_EditRecord c mocks.start "example.com");
    reflexivity.
Defined.

(** X9.  [RunRecordCreate] with its one argument, readable flags and a
    record type that is not empty calls [CreateRecord], once, with the
    domain and the six flags unchanged; when the service answers a record,
    that record, and not the request, is the one item displayed. *)
Theorem record_create_calls_CreateRecord {S} (c : CmdConfig S) (w : World S)
        (name : string) :
  Args c = [name] ->
  first_error (reads HRecordCreate c) = None ->
  godo.Type_ (record_request c) <> "" ->
  map ev_call (new_calls w (snd (RunRecordCreate c w)))
  = [CallCreateRecord name (record_request c)] /\
  forall r s1,
    CreateRecord (Domains c) name (record_request c) (remote w)
    = ((Some r, None), s1) ->
    displayed (snd (RunRecordCreate c w)) = displayed w ++ [domainRecord [r]].
Proof.
  intros HA Hfirst Htype. simpl in Hfirst. revert Hfirst Htype.
  unfold record_request. unfold_body. rewrite HA.
  cbn [List.length Nat.eqb negb nth_error godo.Type_].
  case_split; intros Hfirst Htype; try discriminate.
  all: try (exfalso; apply Htype;
            match goal with
            | H : (String.length ?t =? 0)%nat = true |- _ =>
                destruct t; [reflexivity | discriminate]
            end).
  all: split; [eapply calls_of_run; reflexivity |].
  all: intros ? ? Hr; inversion Hr; subst; simpl in *;
    congruence || reflexivity.
Qed.

Lemma record_create_calls_CreateRecord_witness :
  let c := memory.config ["example.com"]
             [("record-type", "SRV"); ("record-name", "_sip._tcp");
              ("record-data", "sip.example.com")]
             [("record-priority", 10%Z); ("record-port", 5060%Z);
              ("record-weight", 60%Z)] in
  let w := memory.start [] in
  Args c = ["example.com"] /\
  first_error (reads HRecordCreate c) = None /\
  godo.Type_ (record_request c) <> "" /\
  map ev_call (new_calls w (snd (RunRecordCreate c w)))
  = [CallCreateRecord "example.com"
       {| godo.Type_ := "SRV"; godo.Name := "_sip._tcp";
          godo.Data := "sip.example.com"; godo.Priority := 10;
          godo.Port := 5060; godo.Weight := 60 |}].
Proof.
  intros c w. split; [reflexivity |]. split; [reflexivity |].
  split; [discriminate |].
  apply (record_create_calls_CreateRecord c w "example.com");
    [reflexivity | reflexivity | discriminate].
Defined.

(** X10.  [RunDomainCreate] with its one argument and a readable address
    flag calls [Create], once, with the argument as the name and the flag
    as the address, both unchanged; when the service answers a domain, that
    domain is the one item displayed. *)
Theorem domain_create_calls_Create {S} (c : CmdConfig S) (w : World S)
        (domainName : string) :
  Args c = [domainName] ->
  snd (GetString (Doit c) (NS c) "ip-address") = None ->
  let req := {| godo.dcr_Name := domainName;
                godo.dcr_IPAddress :=
                  fst (GetString (Doit c) (NS c) "ip-address") |} in
  map ev_call (new_calls w (snd (RunDomainCreate c w))) = [CallCreate req] /\
  forall d s1,
    Create (Domains c) req (remote w) = ((Some d, None), s1) ->
    displayed (snd (RunDomainCreate c w)) = displayed w ++ [domain [d]].
Proof.
  intros HA Hip req. subst req. unfold_body. rewrite HA, Hip.
  cbn [List.length Nat.eqb negb nth_error].
  case_split.
  all: split; [eapply calls_of_run; reflexivity |].
  all: intros ? ? Hr; inversion Hr; subst; simpl in *;
    congruence || reflexivity.
Qed.

Lemma domain_create_calls_Create_witness :
  let c := memory.config ["example.com"] [("ip-address", "10.0.0.1")] [] in
  let w := memory.start [] in
  Args c = ["example.com"] /\
  snd (GetString (Doit c) (NS c) "ip-address") = None /\
  map ev_call (new_calls w (snd (RunDomainCreate c w)))
  = [CallCreate {| godo.dcr_Name := "example.com";
                   godo.dcr_IPAddress := "10.0.0.1" |}].
Proof.
  intros c w. split; [reflexivity |]. split; [reflexivity |].
  apply (domain_create_calls_Create c w "example.com"); reflexivity.
Defined.

(** The call each of the three handlers makes on a domain name. *)
Lemma named_call {S} (h : Handler) (c : CmdConfig S) (w : World S)
      (name : string) (cl : Call) :
  Args c = [name] ->
  name <> "" ->
  (h = HDomainGet /\ cl = CallGet name) \/
  (h = HDomainDelete /\ cl = CallDelete name) \/
  (h = HRecordList /\ cl = CallRecords name) ->
  exists ev,
    calls (snd (run h c w)) = calls w ++ [ev] /\ ev_call ev = cl.
Proof.
  intros HA Hne Hh.
  assert (Hlen : (String.length name <? 1)%nat = false).
  { destruct name; [congruence | reflexivity]. }
  destruct Hh as [[-> ->] | [[-> ->] | [-> ->]]]; simpl;
    unfold_body; rewrite HA;
    cbn [List.length Nat.eqb negb nth_error]; rewrite Hlen;
    case_split; eexists; split; reflexivity.
Qed.

(** X11.  [RunDomainGet], [RunDomainDelete] and [RunRecordList] with one
    argument that is not empty make exactly one remote call, [Get],
    [Delete] or [Records], on that argument unchanged. *)
Theorem name_passed_unchanged {S} (h : Handler) (c : CmdConfig S) (w : World S)
        (name : string) :
  Args c = [name] ->
  name <> "" ->
  match h with
  | HDomainGet =>
      map ev_call (new_calls w (snd (run h c w))) = [CallGet name]
  | HDomainDelete =>
      map ev_call (new_calls w (snd (run h c w))) = [CallDelete name]
  | HRecordList =>
      map ev_call (new_calls w (snd (run h c w))) = [CallRecords name]
  | _ => True
  end.
Proof.
  intros HA Hne.
  destruct h; try exact I.
  - destruct (named_call HDomainGet c w name (CallGet name) HA Hne)
      as [ev [Hc Hev]]; [auto |].
    eapply calls_of_run; [exact Hc | simpl; now rewrite Hev].
  - destruct (named_call HDomainDelete c w name (CallDelete name) HA Hne)
      as [ev [Hc Hev]]; [auto |].
    eapply calls_of_run; [exact Hc | simpl; now rewrite Hev].
  - destruct (named_call HRecordList c w name (CallRecords name) HA Hne)
      as [ev [Hc Hev]]; [auto 6 |].
    eapply calls_of_run; [exact Hc | simpl; now rewrite Hev].
Qed.

Lemma name_passed_unchanged_witness :
  let c := mocks.config mocks.quiet [" Example.COM "] [] [] in
  Args c = [" Example.COM "] /\
  " Example.COM " <> "" /\
  map ev_call (new_calls mocks.start (snd (run HDomainDelete c mocks.start)))
  = [CallDelete " Example.COM "].
Proof.
  intros c. split; [reflexivity |]. split; [discriminate |].
  apply (name_passed_unchanged HDomainDelete c mocks.start " Example.COM ");
    [reflexivity | discriminate].
Defined.

(** X12.  [RunDomainGet], [RunDomainDelete] and [RunRecordList] with the
    empty string as their one argument return an invalid-input error made
    with [errors.New] and leave the world untouched: no remote call. *)
Theorem empty_name_refused {S} (h : Handler) (c : CmdConfig S) (w : World S) :
  Args c = [""] ->
  h = HDomainGet \/ h = HDomainDelete \/ h = HRecordList ->
  run h c w
  = (inr (Err (errors_New (match h with
                           | HRecordList => "domain name is missing"
                           | _ => "invalid domain name"
                           end))), w).
Proof.
  intros HA [-> | [-> | ->]]; simpl; unfold_body; rewrite HA; reflexivity.
Qed.

Lemma empty_name_refused_witness :
  let c := memory.config [""] [] [] in
  Args c = [""] /\
  (HRecordList = HDomainGet \/ HRecordList = HDomainDelete
   \/ HRecordList = HRecordList) /\
  run HRecordList c (memory.start [])
  = (inr (Err (errors_New "domain name is missing")), memory.start []).
Proof.
  intros c. split; [reflexivity |]. split; [auto |].
  apply (empty_name_refused HRecordList c (memory.start []));
    [reflexivity | auto].
Defined.

(** ** Listing *)

(** X13.  When [List] answers an error, [RunDomainList] returns that error
    and displays nothing, whatever list came with it. *)
Theorem domain_list_error {S} (c : CmdConfig S) (w : World S)
        (domains : list godo.Domain) (e : error) (s' : S) :
  List_ (Domains c) (remote w) = ((domains, Some e), s') ->
  fst (RunDomainList c w) = inr (Err e) /\
  displayed (snd (RunDomainList c w)) = displayed w.
Proof.
  intros HL. unfold_body. rewrite HL. split; reflexivity.
Qed.

Lemma domain_list_error_witness :
  let d1 := {| godo.dom_Name := "example.com"; godo.dom_IP := "10.0.0.1" |} in
  let a := {| mocks.on_List := (mock.Value [d1],
                                mock.Func (fun _ => Some (RemoteErr "503")));
              mocks.on_Get := (None, None);
              mocks.on_Create := (None, None);
              mocks.on_Delete := None;
              mocks.on_Records := ([], None);
              mocks.on_CreateRecord := (None, None);
              mocks.on_DeleteRecord := fun _ => None;
              mocks.on_EditRecord := (None, None) |} in
  let c := mocks.config a [] [] [] in
  List_ (Domains c) (remote mocks.start) = (([d1], Some (RemoteErr "503")), tt) /\
  fst (RunDomainList c mocks.start) = inr (Err (RemoteErr "503")) /\
  displayed (snd (RunDomainList c mocks.start)) = [].
Proof.
  intros d1 a c. split; [reflexivity |].
  apply (domain_list_error c mocks.start [d1] (RemoteErr "503") tt).
  reflexivity.
Defined.

(** X14.  [RunDomainList] looks neither at its positional arguments nor at
    its flags nor at its namespace: two configurations with the same
    service and the same displayer run alike, so that arguments given to
    [domain list] are accepted and ignored. *)
Theorem domain_list_ignores_arguments {S} (c c' : CmdConfig S) (w : World S) :
  Domains c = Domains c' ->
  Display c = Display c' ->
  RunDomainList c w = RunDomainList c' w.
Proof.
  intros Hd Hdisp. unfold_body. rewrite Hd, Hdisp. reflexivity.
Qed.

Lemma domain_list_ignores_arguments_witness :
  let c := mocks.config mocks.quiet [] [] [] in
  let c' := mocks.config mocks.quiet ["example.com"; "7"]
              [("record-type", "A")] [] in
  Domains c = Domains c' /\
  Display c = Display c' /\
  RunDomainList c mocks.start = RunDomainList c' mocks.start.
Proof.
  intros c c'. split; [reflexivity |]. split; [reflexivity |].
  apply (domain_list_ignores_arguments c c' mocks.start); reflexivity.
Defined.

(** ** Deleting records, the successful run *)

(** X15.  [RunRecordDelete] on a domain and at least one id returns no
    error exactly when every id is a well-formed integer and the calls it
    logged are the successful [DeleteRecord] calls for all of them, in
    order. *)
Theorem record_delete_succeeds_iff {S} (c : CmdConfig S) (w : World S)
        (domainName : string) (ids : list string) :
  Args c = domainName :: ids ->
  ids <> [] ->
  fst (RunRecordDelete c w) = inl tt <->
  exists ns,
    map strconv.Atoi ids = map Some ns /\
    new_calls w (snd (RunRecordDelete c w)) = deleted domainName ns.
Proof.
  intros HA Hne.
  destruct (RunRecordDelete_outcome c w domainName ids HA Hne)
    as [ns [evs [Ho [Hc _]]]].
  rewrite Hc. split.
  - intros Hok. rewrite Hok in Ho. inversion Ho; subst. exists ns. auto.
  - intros [ns' [Hp Hev]].
    inversion Ho as [ns0 Hp0 Hr | pre i post ns0 Hi Hp0 Hb Hr
                     | pre i post ns0 n e Hi Hp0 Hb Hr]; subst.
    + reflexivity.
    + exfalso. apply (parsed_all _ _ Hp i); [| assumption].
      apply in_app_iff. right. now left.
    + exfalso.
      assert (Hin : In {| ev_call := CallDeleteRecord domainName n;
                          ev_err := Some e |} (deleted domainName ns')).
      { rewrite <- Hev.
        match goal with
        | H : _ ++ [_] = new_calls _ _ |- _ => rewrite <- H
        end.
        apply in_app_iff. right. now left. }
      apply deleted_no_error in Hin. discriminate.
Qed.

Lemma record_delete_succeeds_iff_witness :
  let r1 := memory.of_request 1 {| godo.Type_ := "A"; godo.Name := "www";
                                   godo.Data := "10.0.0.1"; godo.Priority := 0;
                                   godo.Port := 0; godo.Weight := 0 |} in
  let r2 := memory.of_request 2 {| godo.Type_ := "MX"; godo.Name := "mail";
                                   godo.Data := "10.0.0.2"; godo.Priority := 10;
                                   godo.Port := 0; godo.Weight := 0 |} in
  let w := memory.start [("example.com", r1); ("example.com", r2)] in
  let c := memory.config ["example.com"; "2"; "+1"] [] [] in
  Args c = "example.com" :: ["2"; "+1"] /\
  ["2"; "+1"] <> [] /\
  fst (RunRecordDelete c w) = inl tt /\
  remote (snd (RunRecordDelete c w)) = [].
Proof.
  intros r1 r2 w c. split; [reflexivity |]. split; [discriminate |].
  split; [| reflexivity].
  apply (record_delete_succeeds_iff c w "example.com" ["2"; "+1"]);
    [reflexivity | discriminate |].
  exists [2%Z; 1%Z]. split; reflexivity.
Defined.

(** ** The command tree against the handlers *)

(** X16.  Every command that [Domain] builds declares all the flags its
    handler reads, each with the type it is read with: if another flag
    store reads the declared flags of the command alike, the handler runs
    alike on it. *)
Theorem declared_flags_suffice {S} (ArgDomainName : string)
        (cr : Handler) (cliText desc : string) (out : io_Writer)
        (options : list cmdOption) (flagset : list FlagDecl)
        (c : CmdConfig S) (d' : Config) (w : World S) :
  In (CmdBuilder cr cliText desc out options flagset)
     (runnable (Domain ArgDomainName)) ->
  (forall f, In f flagset -> same_flag (NS c) (Doit c) d' f) ->
  run cr (with_Doit c d') w = run cr c w.
Proof.
  intros Hin Hsame.
  assert (HF : Forall (same_flag (NS c) (Doit c) d') flagset)
    by (apply Forall_forall; assumption).
  clear Hsame. each_command Hin.
  all: repeat match goal with
              | H : Forall _ (_ :: _) |- _ => inversion H; clear H; subst
              | H : Forall _ [] |- _ => clear H
              end.
  all: unfold same_flag, doctl.ArgIPAddress in *.
  all: simpl run; unfold_body; unfold with_Doit;
    cbn [NS Doit Args Domains Display].
  all: repeat match goal with
              | H : GetString (Doit _) _ _ = _ |- _ => rewrite <- H; clear H
              | H : GetInt (Doit _) _ _ = _ |- _ => rewrite <- H; clear H
              end.
  all: reflexivity.
Qed.

Lemma declared_flags_suffice_witness :
  let c := mocks.config mocks.quiet ["example.com"]
             [("record-type", "A"); ("record-name", "www")] [] in
  let d' := flags [("record-type", "A"); ("record-name", "www");
                   ("ip-address", "10.0.0.1"); ("output", "json")] [] in
  let flagset :=
    [AddStringFlag doctl.ArgRecordType "" "Record type" [];
     AddStringFlag doctl.ArgRecordName "" "Record name" [];
     AddStringFlag doctl.ArgRecordData "" "Record data" [];
     AddIntFlag doctl.ArgRecordPriority 0 "Record priority" [];
     AddIntFlag doctl.ArgRecordPort 0 "Record port" [];
     AddIntFlag doctl.ArgRecordWeight 0 "Record weight" []] in
  (forall f, In f flagset -> same_flag (NS c) (Doit c) d' f) /\
  run HRecordCreate (with_Doit c d') mocks.start
  = run HRecordCreate c mocks.start.
Proof.
  intros c d' flagset.
  assert (Hsame : forall f, In f flagset -> same_flag (NS c) (Doit c) d' f).
  { intros f Hf. simpl in Hf.
    repeat destruct Hf as [<- | Hf]; try contradiction; reflexivity. }
  split; [exact Hsame |].
  apply (declared_flags_suffice "domain-name" HRecordCreate
           "create <domain>" "create record" Writer
           [aliasOpt "c"; displayerType (domainRecord []);
            docCategories ["domain"]]
           flagset c d' mocks.start); [simpl; auto 10 | exact Hsame].
Defined.

(** What a run adds to the displayed items is of the kind of its handler. *)
Lemma displayed_kind {S} (h : Handler) (c : CmdConfig S) (w : World S) :
  displayed (snd (run h c w)) = displayed w \/
  exists item,
    displayed (snd (run h c w)) = displayed w ++ [item] /\
    displays h item = true.
Proof.
  destruct (record_delete_or_not h) as [-> | Hh].
  - left. simpl.
    destruct (Args c) as [|domainName [|i rest]] eqn:HA.
    + now rewrite record_delete_short by (rewrite HA; simpl; lia).
    + now rewrite record_delete_short by (rewrite HA; simpl; lia).
    + destruct (RunRecordDelete_outcome c w domainName (i :: rest) HA)
        as [ns [evs [_ [_ [_ Hd]]]]]; [discriminate | exact Hd].
  - pose proof (single_call_run h c w Hh) as H.
    destruct (run h c w) as [r w']. simpl in *. destruct H.
    + left. reflexivity.
    + left. reflexivity.
    + right. exists item. auto.
Qed.

(** X17.  Whatever a command of the tree displays is of the displayer type
    the command declares: an item that a run of its handler adds to the
    displayed ones has the kind of a [displayerType] option of the command.
    The two commands without that option display nothing. *)
Theorem displayed_item_of_declared_type {S} (ArgDomainName : string)
        (cr : Handler) (cliText desc : string) (out : io_Writer)
        (options : list cmdOption) (flagset : list FlagDecl)
        (c : CmdConfig S) (w : World S) (item : Displayable) :
  In (CmdBuilder cr cliText desc out options flagset)
     (runnable (Domain ArgDomainName)) ->
  In item (displayed (snd (run cr c w))) ->
  In item (displayed w) \/
  exists d, In (displayerType d) options /\ same_kind d item = true.
Proof.
  intros Hin Hitem.
  destruct (displayed_kind cr c w) as [Hd | [item' [Hd Hk]]];
    rewrite Hd in Hitem; [left; exact Hitem |].
  apply in_app_iff in Hitem. destruct Hitem as [Hitem | [<- | []]];
    [left; exact Hitem |].
  right. each_command Hin; destruct item'; try discriminate Hk;
    eexists; (split; [simpl; auto | reflexivity]).
Qed.

Lemma displayed_item_of_declared_type_witness :
  let r := {| godo.rec_ID := 3; godo.rec_Type := "A"; godo.rec_Name := "www";
              godo.rec_Data := "10.0.0.1"; godo.rec_Priority := 0;
              godo.rec_Port := 0; godo.rec_Weight := 0 |} in
  let c := memory.config ["example.com"] [] [] in
  let w := memory.start [("example.com", r)] in
  let options := [aliasOpt "ls"; displayerType (domainRecord []);
                  docCategories ["domain"]] in
  In (domainRecord [r]) (displayed (snd (run HRecordList c w))) /\
  (In (domainRecord [r]) (displayed w) \/
   exists d, In (displayerType d) options /\
             same_kind d (domainRecord [r]) = true).
Proof.
  intros r c w options. split; [simpl; auto |].
  apply (displayed_item_of_declared_type "domain-name" HRecordList
           "list <domain>" "list records" Writer options
           [AddStringFlag "domain-name" "" "Domain name" []] c w);
    simpl; auto 10.
Defined.

(** X18.  Every command of the tree asks for the positional arguments its
    usage line names: a run of its handler on fewer arguments than the
    line has [<...>] places returns the missing-arguments error and leaves
    the world untouched. *)
Theorem usage_line_arguments {S} (ArgDomainName : string)
        (cr : Handler) (cliText desc : string) (out : io_Writer)
        (options : list cmdOption) (flagset : list FlagDecl)
        (c : CmdConfig S) (w : World S) :
  In (CmdBuilder cr cliText desc out options flagset)
     (runnable (Domain ArgDomainName)) ->
  List.length (Args c) < placeholders cliText ->
  run cr c w = (inr (Err (MissingArgsErr (NS c))), w).
Proof.
  intros Hin Hlen.
  each_command Hin; simpl in Hlen; try lia.
  all: try (destruct (Args c) as [|a l] eqn:HA; [| simpl in Hlen; lia];
            match goal with
            | |- run ?h _ _ = _ => apply (no_argument h c w HA); discriminate
            end).
  apply record_delete_short. exact Hlen.
Qed.

Lemma usage_line_arguments_witness :
  let c := mocks.config mocks.quiet ["example.com"] [] [] in
  List.length (Args c) < placeholders "delete <domain> <record id...>" /\
  run HRecordDelete c mocks.start
  = (inr (Err (MissingArgsErr "domain")), mocks.start).
Proof.
  intros c. split; [simpl; lia |].
  apply (usage_line_arguments "domain-name" HRecordDelete
           "delete <domain> <record id...>" "delete record" Writer
           [aliasOpt "d"; docCategories ["domain"]] [] c mocks.start);
    simpl; auto 10; lia.
Defined.

(** ** After the remote call *)

(** X19.  An error return does not mean that nothing happened.  When a
    handler other than [RunRecordDelete] returns an error although its
    remote call answered none, the error is the displayer's: the item was
    handed to the displayer, and the remote call stays made. *)
Theorem error_after_successful_call {S} (h : Handler) (c : CmdConfig S)
        (w : World S) (e : error) (ev : Event) :
  h <> HRecordDelete ->
  fst (run h c w) = inr (Err e) ->
  new_calls w (snd (run h c w)) = [ev] ->
  ev_err ev = None ->
  exists item,
    Display c item = Some e /\
    displayed (snd (run h c w)) = displayed w ++ [item].
Proof.
  intros Hh He Hcalls Hev.
  pose proof (single_call_run h c w Hh) as H.
  destruct (run h c w) as [r w']. simpl in *. subst r.
  inversion H as [e' Hearly | ev' s' r Hr | ev' s' item Hev' Hk Hd]; subst.
  - rewrite new_calls_same in Hcalls. discriminate.
  - erewrite new_calls_app in Hcalls by reflexivity.
    inversion Hcalls; subst ev'.
    destruct Hr as [[e' [Hev' _]] | [[_ [_ Hr]] | [_ [_ Hr]]]];
      congruence.
  - exists item. split; [| reflexivity].
    destruct (Display c item); congruence.
Qed.

Lemma error_after_successful_call_witness :
  let c := {| NS := "domain";
              Doit := flags [("record-type", "A"); ("record-name", "www");
                             ("record-data", "10.0.0.1")] [];
              Args := ["example.com"];
              Domains := memory.DomainsService;
              Display := fun _ => Some (errors_New "unknown output type") |} in
  let w := memory.start [] in
  let ev := {| ev_call := CallCreateRecord "example.com" (record_request c);
               ev_err := None |} in
  HRecordCreate <> HRecordDelete /\
  fst (run HRecordCreate c w) = inr (Err (errors_New "unknown output type")) /\
  new_calls w (snd (run HRecordCreate c w)) = [ev] /\
  remote (snd (run HRecordCreate c w))
  = [("example.com", memory.of_request 1 (record_request c))] /\
  exists item,
    Display c item = Some (errors_New "unknown output type") /\
    displayed (snd (run HRecordCreate c w)) = displayed w ++ [item].
Proof.
  intros c w ev. split; [discriminate |]. split; [reflexivity |].
  split; [reflexivity |]. split; [reflexivity |].
  apply (error_after_successful_call HRecordCreate c w
           (errors_New "unknown output type") ev);
    [discriminate | reflexivity | reflexivity | reflexivity].
Defined.

(** X20.  When [Records] answers a list and no error for a domain name that
    is not empty, [RunRecordList] hands exactly that list to the displayer,
    once, leaves the remote state as the service left it, and returns what
    the displayer returns. *)
Theorem record_list_displays {S} (c : CmdConfig S) (w : World S)
        (name : string) (records : list godo.DomainRecord) (s' : S) :
  Args c = [name] ->
  name <> "" ->
  Records (Domains c) name (remote w) = ((records, None), s') ->
  displayed (snd (RunRecordList c w)) = displayed w ++ [domainRecord records] /\
  remote (snd (RunRecordList c w)) = s' /\
  fst (RunRecordList c w)
  = match Display c (domainRecord records) with
    | Some e => inr (Err e)
    | None => inl tt
    end.
Proof.
  intros HA Hne HR.
  assert (Hlen : (String.length name <? 1)%nat = false).
  { destruct name; [congruence | reflexivity]. }
  unfold_body. rewrite HA.
  cbn [List.length Nat.eqb negb nth_error]. rewrite Hlen, HR. cbn [fst snd].
  destruct (Display c (domainRecord records)); repeat split; reflexivity.
Qed.

Lemma record_list_displays_witness :
  let r1 := memory.of_request 1 {| godo.Type_ := "A"; godo.Name := "www";
                                   godo.Data := "10.0.0.1"; godo.Priority := 0;
                                   godo.Port := 0; godo.Weight := 0 |} in
  let r2 := memory.of_request 2 {| godo.Type_ := "MX"; godo.Name := "mail";
                                   godo.Data := "10.0.0.2"; godo.Priority := 10;
                                   godo.Port := 0; godo.Weight := 0 |} in
  let s := [("example.com", r2); ("example.org", r1); ("example.com", r1)] in
  let c := memory.config ["example.com"] [] [] in
  let w := memory.start s in
  Args c = ["example.com"] /\
  "example.com" <> "" /\
  Records (Domains c) "example.com" (remote w) = (([r2; r1], None), s) /\
  displayed (snd (RunRecordList c w)) = [domainRecord [r2; r1]] /\
  remote (snd (RunRecordList c w)) = s /\
  fst (RunRecordList c w) = inl tt.
Proof.
  intros r1 r2 s c w. split; [reflexivity |]. split; [discriminate |].
  split; [reflexivity |].
  apply (record_list_displays c w "example.com" [r2; r1] s);
    [reflexivity | discriminate | reflexivity].
Defined.

(** X21.  When [Get] answers a domain and no error for a name that is not
    empty, [RunDomainGet] hands that one domain to the displayer and
    returns what the displayer returns. *)
Theorem domain_get_displays {S} (c : CmdConfig S) (w : World S)
        (id : string) (d : godo.Domain) (s' : S) :
  Args c = [id] ->
  id <> "" ->
  Get (Domains c) id (remote w) = ((Some d, None), s') ->
  displayed (snd (RunDomainGet c w)) = displayed w ++ [domain [d]] /\
  fst (RunDomainGet c w)
  = match Display c (domain [d]) with
    | Some e => inr (Err e)
    | None => inl tt
    end.
Proof.
  intros HA Hne HG.
  assert (Hlen : (String.length id <? 1)%nat = false).
  { destruct id; [congruence | reflexivity]. }
  unfold_body. rewrite HA.
  cbn [List.length Nat.eqb negb nth_error]. rewrite Hlen, HG. cbn [fst snd].
  destruct (Display c (domain [d])); split; reflexivity.
Qed.

Lemma domain_get_displays_witness :
  let d := {| godo.dom_Name := "example.com"; godo.dom_IP := "" |} in
  let c := mocks.config mocks.quiet ["example.com"] [] [] in
  Args c = ["example.com"] /\
  "example.com" <> "" /\
  Get (Domains c) "example.com" (remote mocks.start) = ((Some d, None), tt) /\
  displayed (snd (RunDomainGet c mocks.start)) = [domain [d]] /\
  fst (RunDomainGet c mocks.start) = inl tt.
Proof.
  intros d c. split; [reflexivity |]. split; [discriminate |].
  split; [reflexivity |].
  apply (domain_get_displays c mocks.start "example.com" d tt);
    [reflexivity | discriminate | reflexivity].
Defined.
